(** * ShadowHunter: the probing engine, embedded and verified

    This development embeds [ShadowHunter.py] (the generic and the
    platform-specific checkers, the checker registry, [worker_check],
    [scan_username], [scan_email]) and proves properties of it.

    Modelling conventions.
    - A Python [str] is represented by its UTF-8 encoding, as a [string] of
      bytes, a lone surrogate being written with the three bytes of its code
      point.  Substring tests, splitting on ASCII delimiters, comparison
      (byte order coincides with code-point order) are exact on that
      representation; [characters] cuts it into its characters.  [strip] and
      [split()] take for whitespace the characters [str.isspace] accepts,
      [encode] fails on a lone surrogate.
    - [str.lower] and the digit property behind [str.isdigit] come from the
      Unicode database of the interpreter and are parameters, [lower] and
      [unicode_digit]; what is proved holds whatever they are, but for the
      hypotheses that a theorem states.
    - Effects are explicit.  A Python function that talks to the network,
      sleeps or reads the module-level flag [STOP] is a value of the free
      monad [Py]; [run] interprets it in a [World] (the flag, a clock, the log
      of requests and of sleeps) against an [Env] (what the network answers,
      and when SIGINT is delivered).  Console output is not modelled.
    - Third-party libraries are parameters: [xpath_title] stands for lxml
      (parse, then evaluate [string(//title)]) and [json_loads] for the JSON
      decoder behind [Response.json()].  [hashlib.md5] is embedded by the
      algorithm of RFC 1321.
    - [delay] is the float of [--delay] as [time.sleep] sees it: a length it
      accepts, or a value on which it raises ([Delay]). *)

From Stdlib Require Import ZArith NArith Bool Lia.
From Stdlib Require Ascii String.
From stdpp Require Import base tactics option list gmap sets strings sorting.

Local Open Scope Z_scope.

#[local] Set Warnings "-register-all".

(** ** Strings *)

Definition code (c : Ascii.ascii) : Z := Z.of_N (Ascii.N_of_ascii c).

Definition chr (n : Z) : Ascii.ascii := Ascii.ascii_of_N (Z.to_N n).

(** The double-quote character, for literals that contain it. *)
Definition dq : string := String (chr 34) EmptyString.

(** [bool(s)] for a [str]: the empty string is falsy. *)
Definition nonempty (s : string) : bool :=
  match s with EmptyString => false | String _ _ => true end.

(** The bytes of the representation. *)
Definition chars (s : string) : list Ascii.ascii := String.list_ascii_of_string s.

(** A UTF-8 continuation byte, 0b10xxxxxx. *)
Definition is_continuation (c : Ascii.ascii) : bool :=
  (128 <=? code c) && (code c <=? 191).

Fixpoint take_continuation (s : string) : string :=
  match s with
  | EmptyString => EmptyString
  | String c s' =>
      if is_continuation c then String c (take_continuation s') else EmptyString
  end.

(** [s[0]] for a non-empty [s]: the first character, that is the lead byte
    and the continuation bytes after it. *)
Definition first_char (s : string) : string :=
  match s with
  | EmptyString => EmptyString
  | String c s' => String c (take_continuation s')
  end.

Definition starts_with_continuation (s : string) : bool :=
  match s with
  | EmptyString => false
  | String c _ => is_continuation c
  end.

(** [list(s)]: the characters of [s], each one a lead byte with the
    continuation bytes that follow it. *)
Fixpoint characters (s : string) : list string :=
  match s with
  | EmptyString => []
  | String c s' =>
      if starts_with_continuation s'
      then match characters s' with
           | ch :: rest => String c ch :: rest
           | [] => [String c EmptyString]
           end
      else String c EmptyString :: characters s'
  end.

(** [str().join(l)] *)
Fixpoint join (l : list string) : string :=
  match l with
  | [] => EmptyString
  | ch :: l' => ch +:+ join l'
  end.

(** [chr(n)] for a code point [n], in UTF-8. *)
Definition utf8_char (n : Z) : string :=
  if n <? 128 then String (chr n) EmptyString
  else if n <? 2048 then
    String (chr (192 + n / 64)) (String (chr (128 + n mod 64)) EmptyString)
  else if n <? 65536 then
    String (chr (224 + n / 4096))
      (String (chr (128 + (n / 64) mod 64))
         (String (chr (128 + n mod 64)) EmptyString))
  else
    String (chr (240 + n / 262144))
      (String (chr (128 + (n / 4096) mod 64))
         (String (chr (128 + (n / 64) mod 64))
            (String (chr (128 + n mod 64)) EmptyString))).

(** The code points of the characters [str.isspace] accepts, which are the
    ones [str.strip()] and [str.split()] treat as blank: TAB to CR, FS to
    SPACE, NEL, NBSP, OGHAM SPACE MARK, EN QUAD to HAIR SPACE, the line and
    paragraph separators, NARROW NBSP, MEDIUM MATHEMATICAL SPACE and
    IDEOGRAPHIC SPACE. *)
Definition whitespace : list Z :=
  seqZ 9 5 ++ seqZ 28 5 ++ [133; 160; 5760] ++ seqZ 8192 11
  ++ [8232; 8233; 8239; 8287; 12288].

(** [ch.isspace()] for a character [ch]. *)
Definition is_space (ch : string) : bool :=
  existsb (String.eqb ch) (utf8_char <$> whitespace).

Fixpoint lstrip (l : list string) : list string :=
  match l with
  | [] => []
  | ch :: l' => if is_space ch then lstrip l' else l
  end.

Fixpoint rstrip (l : list string) : list string :=
  match l with
  | [] => []
  | ch :: l' =>
      match rstrip l' with
      | [] => if is_space ch then [] else [ch]
      | t => ch :: t
      end
  end.

(** [s.strip()]: [s] without the whitespace characters at its two ends. *)
Definition strip (s : string) : string := join (rstrip (lstrip (characters s))).

(** An ASCII capital letter. *)
Definition is_upper (c : Ascii.ascii) : bool := (65 <=? code c) && (code c <=? 90).

(** One of the ASCII digits 0 to 9. *)
Definition is_digit (c : Ascii.ascii) : bool := (48 <=? code c) && (code c <=? 57).

(** [p in s] *)
Fixpoint contains (p s : string) : bool :=
  String.prefix p s ||
  match s with
  | EmptyString => false
  | String _ s' => contains p s'
  end.

(** [re.split(cls, s)] for a character class [cls]: the pieces between the
    delimiters, empty pieces included. *)
Fixpoint re_split (cls : Ascii.ascii -> bool) (s : string) : list string :=
  match s with
  | EmptyString => [EmptyString]
  | String c s' =>
      if cls c then EmptyString :: re_split cls s'
      else match re_split cls s' with
           | [] => [String c EmptyString]
           | p :: ps => String c p :: ps
           end
  end.

(** [s.split(sep, 1)[0]] for a one-character separator. *)
Fixpoint split1_head (sep : Ascii.ascii) (s : string) : string :=
  match s with
  | EmptyString => EmptyString
  | String c s' =>
      if Ascii.eqb c sep then EmptyString else String c (split1_head sep s')
  end.

(** [len(l.split())] for the characters [l] of a string: the number of
    maximal runs of characters that are not whitespace. *)
Fixpoint count_words (in_word : bool) (l : list string) : nat :=
  match l with
  | [] => O
  | ch :: l' =>
      if is_space ch then count_words false l'
      else if in_word then count_words true l'
      else S (count_words true l')
  end.

(** [tpl.format(u=username)] for a template whose replacement fields are all
    [{u}], as every template of the program is. *)
Fixpoint format_u (tpl username : string) : string :=
  match tpl with
  | EmptyString => EmptyString
  | String c rest =>
      if String.prefix "{u}" tpl
      then match rest with
           | String _ (String _ rest') => username +:+ format_u rest' username
           | _ => EmptyString
           end
      else String c (format_u rest username)
  end.

(** Python's [<=] on [str]. *)
Definition str_le (a b : string) : Prop := String.leb a b = true.

#[global] Instance str_le_dec : RelDecision str_le.
Proof. intros a b. unfold str_le. apply _. Defined.

(** Does [s] hold a lone surrogate?  Its three bytes are 0xED, then a byte
    from 0xA0 to 0xBF, then a continuation byte; no other character has
    these first two bytes. *)
Fixpoint has_surrogate (s : string) : bool :=
  match s with
  | EmptyString => false
  | String c s' =>
      ((code c =? 237)
       && match s' with
          | String c' _ => (160 <=? code c') && (code c' <=? 191)
          | EmptyString => false
          end)
      || has_surrogate s'
  end.

(** [s.encode()]: the UTF-8 bytes of [s]; [None] when it raises
    [UnicodeEncodeError], which it does when [s] holds a lone surrogate. *)
Definition encode (s : string) : option (list Z) :=
  if has_surrogate s then None else Some (code <$> chars s).

(** ** MD5 (RFC 1321), the digest behind [hashlib.md5] *)

Module MD5.

Definition add32 (a b : Z) : Z := (a + b) mod 2 ^ 32.

Definition not32 (a : Z) : Z := Z.lxor a 0xffffffff.

Definition rotl32 (x : Z) (n : Z) : Z :=
  Z.lor (Z.shiftl x n mod 2 ^ 32) (Z.shiftr x (32 - n)).

(** [K i = floor (2^32 * abs (sin (i + 1)))] *)
Definition K : list Z :=
  [0xd76aa478; 0xe8c7b756; 0x242070db; 0xc1bdceee;
   0xf57c0faf; 0x4787c62a; 0xa8304613; 0xfd469501;
   0x698098d8; 0x8b44f7af; 0xffff5bb1; 0x895cd7be;
   0x6b901122; 0xfd987193; 0xa679438e; 0x49b40821;
   0xf61e2562; 0xc040b340; 0x265e5a51; 0xe9b6c7aa;
   0xd62f105d; 0x02441453; 0xd8a1e681; 0xe7d3fbc8;
   0x21e1cde6; 0xc33707d6; 0xf4d50d87; 0x455a14ed;
   0xa9e3e905; 0xfcefa3f8; 0x676f02d9; 0x8d2a4c8a;
   0xfffa3942; 0x8771f681; 0x6d9d6122; 0xfde5380c;
   0xa4beea44; 0x4bdecfa9; 0xf6bb4b60; 0xbebfbc70;
   0x289b7ec6; 0xeaa127fa; 0xd4ef3085; 0x04881d05;
   0xd9d4d039; 0xe6db99e5; 0x1fa27cf8; 0xc4ac5665;
   0xf4292244; 0x432aff97; 0xab9423a7; 0xfc93a039;
   0x655b59c3; 0x8f0ccc92; 0xffeff47d; 0x85845dd1;
   0x6fa87e4f; 0xfe2ce6e0; 0xa3014314; 0x4e0811a1;
   0xf7537e82; 0xbd3af235; 0x2ad7d2bb; 0xeb86d391].

(** The per-round shift amounts. *)
Definition shifts : list Z :=
  [7; 12; 17; 22; 7; 12; 17; 22; 7; 12; 17; 22; 7; 12; 17; 22;
   5; 9; 14; 20; 5; 9; 14; 20; 5; 9; 14; 20; 5; 9; 14; 20;
   4; 11; 16; 23; 4; 11; 16; 23; 4; 11; 16; 23; 4; 11; 16; 23;
   6; 10; 15; 21; 6; 10; 15; 21; 6; 10; 15; 21; 6; 10; 15; 21].

(** [n] bytes of [x], least significant first. *)
Fixpoint le_bytes (n : nat) (x : Z) : list Z :=
  match n with
  | O => []
  | S n' => x mod 256 :: le_bytes n' (x / 256)
  end.

Fixpoint le_word (bs : list Z) : Z :=
  match bs with
  | [] => 0
  | b :: bs' => b + 256 * le_word bs'
  end.

Fixpoint chunks (fuel n : nat) (l : list Z) : list (list Z) :=
  match fuel, l with
  | O, _ | _, [] => []
  | S fuel', _ => take n l :: chunks fuel' n (drop n l)
  end.

(** The message, the byte 0x80, zeros up to 56 modulo 64, and the length in
    bits on 8 bytes. *)
Definition pad (msg : list Z) : list Z :=
  let len := Z.of_nat (length msg) in
  msg ++ [0x80] ++ replicate (Z.to_nat ((55 - len) mod 64)) 0
      ++ le_bytes 8 ((8 * len) mod 2 ^ 64).

Definition state : Type := Z * Z * Z * Z.

Definition step (M : list Z) (st : state) (i : nat) : state :=
  let '(a, b, c, d) := st in
  let zi := Z.of_nat i in
  let '(f, g) :=
    if zi <? 16 then (Z.lor (Z.land b c) (Z.land (not32 b) d), zi)
    else if zi <? 32 then (Z.lor (Z.land d b) (Z.land (not32 d) c), (5 * zi + 1) mod 16)
    else if zi <? 48 then (Z.lxor (Z.lxor b c) d, (3 * zi + 5) mod 16)
    else (Z.lxor c (Z.lor b (not32 d)), (7 * zi) mod 16) in
  let f' := add32 (add32 (add32 f a) (nth i K 0)) (nth (Z.to_nat g) M 0) in
  (d, add32 b (rotl32 f' (nth i shifts 0)), b, c).

Definition block (st : state) (bytes : list Z) : state :=
  let M := le_word <$> chunks 16 4 bytes in
  let '(a0, b0, c0, d0) := st in
  let '(a, b, c, d) := foldl (step M) st (seq 0 64) in
  (add32 a0 a, add32 b0 b, add32 c0 c, add32 d0 d).

Definition init : state := (0x67452301, 0xefcdab89, 0x98badcfe, 0x10325476).

Definition digest (msg : list Z) : list Z :=
  let padded := pad msg in
  let '(a, b, c, d) := foldl block init (chunks (length padded) 64 padded) in
  le_bytes 4 a ++ le_bytes 4 b ++ le_bytes 4 c ++ le_bytes 4 d.

Definition hex_digit (n : Z) : Ascii.ascii :=
  chr (if n <? 10 then 48 + n else 87 + n).

Fixpoint hex (bytes : list Z) : string :=
  match bytes with
  | [] => EmptyString
  | b :: bs => String (hex_digit (b / 16)) (String (hex_digit (b mod 16)) (hex bs))
  end.

(** [hashlib.md5(msg).hexdigest()] *)
Definition hexdigest (msg : list Z) : string := hex (digest msg).

End MD5.

(** ** The candidate deriver *)

(** The character class of the regular expression [[.\-_+]]. *)
Definition is_delimiter (c : Ascii.ascii) : bool :=
  (code c =? 46) || (code c =? 45) || (code c =? 95) || (code c =? 43).

(** The four variants built from [first] and [last]. *)
Definition variants (first last : string) : list string :=
  [first +:+ last; first +:+ "_" +:+ last; first +:+ "." +:+ last;
   first_char first +:+ last].

(** The set [cands] of [scan_email], before it is sorted; [chr 64] is the
    character [@]. *)
Definition candidate_set (email : string) : gset string :=
  let local := split1_head (chr 64) email in
  let parts := re_split is_delimiter local in
  let cands : gset string := {[ local ]} in
  if (2 <=? length parts)%nat then
    match parts with
    | first :: rest =>
        let last := List.last rest EmptyString in
        if nonempty first && nonempty last
        then cands ∪ list_to_set (variants first last)
        else cands
    | [] => cands
    end
  else cands.

(** The body of [if also_derive:] in [scan_email]:
    [sorted(list(cands))[:8]]. *)
Definition derive_candidates (email : string) : list string :=
  take 8 (merge_sort str_le (elements (candidate_set email))).

(** ** Values, exceptions, responses *)

(** The Python values that occur as evidence ([meta]) and as decoded JSON. *)
Inductive pyval : Type :=
| PNone
| PBool (b : bool)
| PInt (z : Z)
| PFloat (num : Z) (den : positive)
| PStr (s : string)
| PList (l : list pyval)
| PTuple (l : list pyval)
| PDict (d : list (string * pyval)).

(** [bool(v)] *)
Definition truthy (v : pyval) : bool :=
  match v with
  | PNone => false
  | PBool b => b
  | PInt z => negb (z =? 0)
  | PFloat n _ => negb (n =? 0)
  | PStr s => nonempty s
  | PList l | PTuple l => match l with [] => false | _ => true end
  | PDict d => match d with [] => false | _ => true end
  end.

(** [isinstance(v, dict)] *)
Definition is_dict (v : pyval) : bool :=
  match v with PDict _ => true | _ => false end.

Fixpoint assoc {V : Type} (k : string) (d : list (string * V)) : option V :=
  match d with
  | [] => None
  | (k', v) :: d' => if String.eqb k k' then Some v else assoc k d'
  end.

(** An exception: whether its class derives from
    [requests.RequestException], and [str(e)]. *)
Record exn : Type := mkExn { is_request_exception : bool; message : string }.

Definition AttributeError : exn := mkExn false "object has no attribute 'get'".
Definition UnicodeEncodeError : exn := mkExn false "surrogates not allowed".
Definition JSONDecodeError : exn := mkExn true "Expecting value".

Record Response : Type := mkResponse {
  status_code : Z;
  text : string;       (* the decoded body *)
  content : string     (* the raw body *)
}.

(** What [session.get] does: it returns a response or raises. *)
Inductive reply : Type :=
| Respond (r : Response)
| Fail (e : exn).

(** ** The effect monad *)

Inductive Py (A : Type) : Type :=
| Ret (a : A)
| Raise (e : exn)
| Get (url : string) (k : reply -> Py A)
| Sleep (d : N) (k : Py A)
| ReadSTOP (k : bool -> Py A).

Arguments Ret {A} a.
Arguments Raise {A} e.
Arguments Get {A} url k.
Arguments Sleep {A} d k.
Arguments ReadSTOP {A} k.

Fixpoint bind {A B : Type} (m : Py A) (f : A -> Py B) : Py B :=
  match m with
  | Ret a => f a
  | Raise e => Raise e
  | Get url k => Get url (fun r => bind (k r) f)
  | Sleep d k => Sleep d (bind k f)
  | ReadSTOP k => ReadSTOP (fun b => bind (k b) f)
  end.

#[global] Instance Py_ret : MRet Py := @Ret.
#[global] Instance Py_bind : MBind Py := fun A B f m => bind m f.

(** [try: m  except <classes accepted by catches>: h] *)
Fixpoint try_except {A : Type} (catches : exn -> bool)
    (m : Py A) (h : exn -> Py A) : Py A :=
  match m with
  | Ret a => Ret a
  | Raise e => if catches e then h e else Raise e
  | Get url k => Get url (fun r => try_except catches (k r) h)
  | Sleep d k => Sleep d (try_except catches k h)
  | ReadSTOP k => ReadSTOP (fun b => try_except catches (k b) h)
  end.

(** [except Exception] catches every exception the program can meet. *)
Definition Exception : exn -> bool := fun _ => true.
Definition RequestException : exn -> bool := is_request_exception.

(** [session.get(url)] *)
Definition session_get (url : string) : Py Response :=
  Get url (fun rep => match rep with Respond r => Ret r | Fail e => Raise e end).

(** The value of [--delay], a [float], as [time.sleep] sees it: a length it
    accepts (kept in milliseconds), or a value it refuses by raising [e]
    ([ValueError] for a negative number or NaN, [OverflowError] for an
    infinity or a number too large). *)
Inductive Delay : Type :=
| Seconds (ms : N)
| Refused (e : exn).

Definition ValueError : exn := mkExn false "sleep length must be non-negative".
Definition OverflowError : exn := mkExn false "timestamp too large to convert to C _PyTime_t".

(** [time.sleep(delay)] *)
Definition time_sleep (delay : Delay) : Py unit :=
  match delay with
  | Seconds ms => Sleep ms (Ret tt)
  | Refused e => Raise e
  end.

(** Reading the global [STOP]. *)
Definition read_STOP : Py bool := ReadSTOP Ret.

(** ** The world a scan runs in *)

(** The surroundings of a run: [network n url] is what the [n]-th request
    of the run gets when it asks for [url]; [sigint t] tells whether SIGINT is
    delivered during step [t], in which case the handler [_sigint] sets
    [STOP]. *)
Record Env : Type := mkEnv {
  network : nat -> string -> reply;
  sigint : nat -> bool
}.

Record World : Type := mkWorld {
  STOP : bool;
  clock : nat;
  requests : list string;   (* the URLs requested so far, oldest first *)
  naps : list N             (* the sleeps taken so far, oldest first *)
}.

(** One step of time; [_sigint] runs if the signal arrives during it. *)
Definition tick (env : Env) (w : World) : World :=
  mkWorld (STOP w || sigint env (clock w)) (S (clock w)) (requests w) (naps w).

Definition log_request (url : string) (w : World) : World :=
  mkWorld (STOP w) (clock w) (requests w ++ [url]) (naps w).

Definition log_nap (d : N) (w : World) : World :=
  mkWorld (STOP w) (clock w) (requests w) (naps w ++ [d]).

Fixpoint run {A : Type} (env : Env) (m : Py A) (w : World) : (A + exn) * World :=
  match m with
  | Ret a => (inl a, w)
  | Raise e => (inr e, w)
  | Get url k =>
      run env (k (network env (length (requests w)) url))
          (tick env (log_request url w))
  | Sleep d k => run env k (tick env (log_nap d w))
  | ReadSTOP k => run env (k (STOP w)) (tick env w)
  end.

(** ** The checkers *)

(** The record [worker_check] returns.  [exists_] is the field [exists]
    ([None] is Python's [None]); [skipped] tells whether the key "skipped" is
    present (its value is then [True]). *)
Record Hit : Type := mkHit {
  platform : string;
  url : string;
  exists_ : option bool;
  meta : pyval;
  skipped : bool
}.

Definition Absent : bool * pyval := (false, PDict []).

(** The typographic apostrophe U+2019, in UTF-8. *)
Definition rsquo : string :=
  String (chr 226) (String (chr 128) (String (chr 153) EmptyString)).

(** A [for p in phrases: if p in txt: return ...] loop: does it return? *)
Fixpoint any_phrase_in (phrases : list string) (txt : string) : bool :=
  match phrases with
  | [] => false
  | p :: rest => if contains p txt then true else any_phrase_in rest txt
  end.

(** [d.get(key)] on a value: [AttributeError] unless it is a dict. *)
Definition py_get (v : pyval) (key : string) : Py pyval :=
  match v with
  | PDict d => Ret (default PNone (assoc key d))
  | _ => Raise AttributeError
  end.

(** ** Vocabulary of the properties *)

(** [p] occurs in [s]. *)
Definition occurs (p s : string) : Prop :=
  exists pre post, s = pre +:+ p +:+ post.

(** Cancellation is never signalled from [w] on: the flag is clear and no
    SIGINT is delivered at any later step. *)
Definition never_signalled (env : Env) (w : World) : Prop :=
  STOP w = false /\ forall t, (clock w <= t)%nat -> sigint env t = false.

(** A record that carries an outcome of a checker, not a skip. *)
Definition completed (h : Hit) : Prop := is_Some (exists_ h).

#[global] Instance completed_dec (h : Hit) : Decision (completed h).
Proof. unfold completed. apply _. Defined.

(** [fetches n m]: the code [m] makes at most [n] requests, and does nothing
    else: it neither sleeps nor reads [STOP]. *)
Inductive fetches {A : Type} : nat -> Py A -> Prop :=
| fetches_ret (n : nat) (a : A) : fetches n (Ret a)
| fetches_raise (n : nat) (e : exn) : fetches n (Raise e)
| fetches_get (n : nat) (url : string) (k : reply -> Py A) :
    (forall r, fetches n (k r)) -> fetches (S n) (Get url k).

(** [always R Q m]: when every answer of the network satisfies [R], the
    code [m] ends in a way that satisfies [Q]. *)
Inductive always {A : Type} (R : reply -> Prop) (Q : A + exn -> Prop)
    : Py A -> Prop :=
| always_ret (a : A) : Q (inl a) -> always R Q (Ret a)
| always_raise (e : exn) : Q (inr e) -> always R Q (Raise e)
| always_get (url : string) (k : reply -> Py A) :
    (forall r, R r -> always R Q (k r)) -> always R Q (Get url k)
| always_sleep (d : N) (k : Py A) : always R Q k -> always R Q (Sleep d k)
| always_read (k : bool -> Py A) :
    (forall b, always R Q (k b)) -> always R Q (ReadSTOP k).

(** The platforms whose checker wraps all it does in
    [try ... except Exception]. *)
Definition fail_closed_platforms : list string :=
  ["gitlab"; "reddit"; "stack_overflow"; "tiktok"; "youtube"; "steam";
   "instagram"; "x"; "hackernews"; "linkedin"].

(** The network is unreachable: every request raises a
    [RequestException]. *)
Definition unreachable (r : reply) : Prop :=
  match r with
  | Respond _ => False
  | Fail e => is_request_exception e = true
  end.

(** Every request is answered with status 404. *)
Definition answers_404 (r : reply) : Prop :=
  match r with
  | Respond r => status_code r = 404
  | Fail _ => False
  end.

(** [meta] is a mapping. *)
Definition is_mapping (v : pyval) : Prop :=
  match v with PDict _ => True | _ => False end.

(** How a call of the checker of platform [p] may end: an exception that
    comes out of it is not a [RequestException], and [p] is not one of the
    fail-closed platforms. *)
Definition escapes_only (p : string) (o : bool * pyval + exn) : Prop :=
  match o with
  | inl _ => True
  | inr e => is_request_exception e = false /\ p ∉ fail_closed_platforms
  end.

Definition ends_absent (o : bool * pyval + exn) : Prop :=
  o = inl (false, PDict []).

(** The evidence a checker returns is a mapping; the one exception is the
    pair [(True, {})] that the checker of stack_overflow returns. *)
Definition evidence_shape (p : string) (o : bool * pyval + exn) : Prop :=
  match o with
  | inl (_, m) =>
      is_mapping m \/
      (p = "stack_overflow" /\ m = PTuple [PBool true; PDict []])
  | inr _ => True
  end.

Definition any_reply (r : reply) : Prop := True.

(** A lowercase hexadecimal digit. *)
Definition is_hex_char (c : Ascii.ascii) : bool :=
  is_digit c || ((97 <=? code c) && (code c <=? 102)).

(** ** A sample world *)

(** What follows the first occurrence of [tag] in [s]. *)
Fixpoint after (tag s : string) : option string :=
  if String.prefix tag s
  then Some (String.substring (String.length tag) (String.length s) s)
  else match s with
       | EmptyString => None
       | String _ s' => after tag s'
       end.

Fixpoint upto_lt (s : string) : string :=
  match s with
  | EmptyString => EmptyString
  | String c s' => if code c =? 60 then EmptyString else String c (upto_lt s')
  end.

(** A title extractor for documents with a flat title element; it refuses the
    empty document, as lxml does. *)
Definition sample_title (content : string) : option string :=
  match content with
  | EmptyString => None
  | _ => Some (match after "<title>" content with
               | Some t => upto_lt t
               | None => EmptyString
               end)
  end.

(** A decoder that accepts nothing. *)
Definition sample_json (content : string) : option pyval := None.

Definition lower_char (c : Ascii.ascii) : Ascii.ascii :=
  if is_upper c then chr (code c + 32) else c.

(** The case mapping of ASCII: the letters A to Z made small, every other
    byte kept.  It is what [str.lower] does to a string of ASCII
    characters. *)
Fixpoint ascii_lower (s : string) : string :=
  match s with
  | EmptyString => EmptyString
  | String c s' => String (lower_char c) (ascii_lower s')
  end.

(** The digits among the ASCII characters. *)
Definition ascii_digit (ch : string) : bool :=
  match ch with
  | String c EmptyString => is_digit c
  | _ => false
  end.

(** The same with U+00B2, SUPERSCRIPT TWO, which [str.isdigit] accepts. *)
Definition digit_or_superscript_two (ch : string) : bool :=
  ascii_digit ch || String.eqb ch (utf8_char 178).

Definition sample_page : Response :=
  mkResponse 200 "<html><head><title>Bob</title></head></html>"
             "<html><head><title>Bob</title></head></html>".

(** Every request is answered with [sample_page]; SIGINT is delivered
    during step [t]. *)
Definition sample_env (sig : nat -> bool) : Env :=
  mkEnv (fun _ _ => Respond sample_page) sig.

Definition never : nat -> bool := fun _ => false.
Definition at_step (t : nat) : nat -> bool := fun n => Nat.eqb n t.

(** Every request fails with an exception that is not a
    [RequestException]. *)
Definition broken_env : Env :=
  mkEnv (fun _ _ => Fail (mkExn false "boom")) never.

Definition w0 : World := mkWorld false 0 [] [].

Definition three_platforms : list string := ["medium"; "devto"; "vimeo"].

(** The [exists] fields of the records a scan returned. *)
Definition outcomes (r : (list Hit + exn) * World) : option (list (option bool)) :=
  match r.1 with
  | inl rs => Some (exists_ <$> rs)
  | inr _ => None
  end.

Section Engine.

(** lxml: [html.fromstring(content).xpath("string(//title)")], [None] when
    it raises. *)
Variable xpath_title : string -> option string.

(** The JSON decoder of [Response.json()], [None] when it raises. *)
Variable json_loads : string -> option pyval.

(** [str.lower] of the interpreter: [lower s] is [s.lower()]. *)
Variable lower : string -> string.

(** The Unicode database of the interpreter: [unicode_digit ch] tells
    whether [ch.isdigit()] holds of the character [ch]. *)
Variable unicode_digit : string -> bool.

(** [s.isdigit()]: at least one character, and all of them digits. *)
Definition isdigit (s : string) : bool :=
  nonempty s && forallb unicode_digit (characters s).

(** The digest [h] of [scan_email]:
    [hashlib.md5(email.strip().lower().encode()).hexdigest()], [None] when
    [.encode()] raises. *)
Definition gravatar_hash (email : string) : option string :=
  MD5.hexdigest <$> encode (lower (strip email)).

Definition _title_from_html (content : string) : string :=
  match xpath_title content with
  | Some t => strip t
  | None => EmptyString
  end.

(** [r.json()] *)
Definition r_json (r : Response) : Py pyval :=
  match json_loads (content r) with
  | Some j => Ret j
  | None => Raise JSONDecodeError
  end.

Definition generic_negatives : list string :=
  ["not found"; "page not found"; "user not found"; "no such user";
   "sorry, this page"].

Definition check_generic (url_template username : string) : Py (bool * pyval) :=
  let url := format_u url_template username in
  try_except RequestException
    (r ← session_get url;
     if status_code r =? 404 then Ret Absent
     else
       let txt := lower (text r) in
       if any_phrase_in generic_negatives txt then Ret Absent
       else
         let title := _title_from_html (content r) in
         if nonempty title
         then Ret (true, PDict [("title", PStr title);
                                ("source", PStr "generic-title")])
         else Ret (status_code r =? 200, PDict []))
    (fun _ => Ret Absent).

Definition check_github (username : string) : Py (bool * pyval) :=
  let api := "https://api.github.com/users/" +:+ username in
  returned ← try_except Exception
    (r ← session_get api;
     if status_code r =? 200 then
       j ← r_json r;
       name ← py_get j "name";
       bio ← py_get j "bio";
       Ret (Some (true, PDict [("source", PStr "api.github.com");
                               ("name", name); ("bio", bio)]))
     else if status_code r =? 404 then Ret (Some Absent)
     else Ret None)
    (fun _ => Ret None);
  match returned with
  | Some v => Ret v
  | None => check_generic "https://github.com/{u}" username
  end.

Definition check_reddit (username : string) : Py (bool * pyval) :=
  let about := "https://www.reddit.com/user/" +:+ username +:+ "/about.json" in
  let profile := "https://www.reddit.com/user/" +:+ username +:+ "/" in
  returned ← try_except Exception
    (r ← session_get about;
     hit ← (if status_code r =? 200 then
              try_except Exception
                (j ← r_json r;
                 if is_dict j then
                   data ← py_get j "data";
                   if truthy data then
                     name ← py_get data "name";
                     if truthy name
                     then Ret (Some (true, PDict [("source", PStr "reddit-about-json");
                                                  ("data", data)]))
                     else Ret None
                   else Ret None
                 else Ret None)
                (fun _ => Ret None)
            else Ret None);
     match hit with
     | Some v => Ret (Some v)
     | None =>
         if (status_code r =? 403) || (status_code r =? 404) || (status_code r =? 410)
         then Ret (Some Absent)
         else Ret None
     end)
    (fun _ => Ret None);
  match returned with
  | Some v => Ret v
  | None =>
      try_except Exception
        (r2 ← session_get profile;
         if status_code r2 =? 404 then Ret Absent
         else
           let txt := lower (text r2) in
           if contains "sorry, nobody on reddit goes by that name" txt
              || contains "account suspended" txt
              || contains "this account may have been banned" txt
           then Ret Absent
           else
             let title := _title_from_html (content r2) in
             if nonempty title && negb (contains "reddit" (lower title))
             then Ret (true, PDict [("source", PStr "reddit-html-title");
                                    ("title", PStr title)])
             else Ret (true, PDict []))
        (fun _ => Ret Absent)
  end.

(** The last [return] of the Python function parses as
    [return True, (D if title else (True, {}))]: with an empty title the
    second component is the tuple [(True, {})]. *)
Definition check_stackoverflow (username : string) : Py (bool * pyval) :=
  if negb (isdigit username) then Ret Absent
  else
    let url := "https://stackoverflow.com/users/" +:+ username in
    try_except Exception
      (r ← session_get url;
       if status_code r =? 404 then Ret Absent
       else
         let txt := lower (text r) in
         if any_phrase_in ["user deleted"; "page not found"; "profile not found"] txt
         then Ret Absent
         else
           let title := _title_from_html (content r) in
           Ret (true,
                if nonempty title
                then PDict [("source", PStr "stackoverflow-html");
                            ("title", PStr title)]
                else PTuple [PBool true; PDict []]))
      (fun _ => Ret Absent).

Definition check_hackernews (username : string) : Py (bool * pyval) :=
  let url := "https://news.ycombinator.com/user?id=" +:+ username in
  try_except Exception
    (r ← session_get url;
     if status_code r =? 404 then Ret Absent
     else
       let txt := lower (text r) in
       if contains "no such user." txt || contains "no such user" txt
       then Ret Absent
       else Ret (true, PDict [("source", PStr "hackernews-html")]))
    (fun _ => Ret Absent).

Definition check_gitlab (username : string) : Py (bool * pyval) :=
  let url := "https://gitlab.com/" +:+ username in
  try_except Exception
    (r ← session_get url;
     if status_code r =? 404 then Ret Absent
     else
       let txt := lower (text r) in
       if any_phrase_in ["page not found"; "just a moment"; "404"] txt
       then Ret Absent
       else if contains "profile-header" txt || contains "user-show" txt
               || contains "projects" txt || contains "activity" txt
       then
         let title := _title_from_html (content r) in
         Ret (true, PDict [("source", PStr "gitlab-html-marker");
                           ("title", PStr title)])
       else Ret Absent)
    (fun _ => Ret Absent).

Definition check_x (username : string) : Py (bool * pyval) :=
  let url := "https://x.com/" +:+ username in
  try_except Exception
    (r ← session_get url;
     if status_code r =? 404 then Ret Absent
     else
       let txt := lower (text r) in
       if any_phrase_in ["account suspended";
                         "this account doesn" +:+ rsquo +:+ "t exist";
                         "this account doesn't exist";
                         "user not found"] txt
       then Ret Absent
       else if contains ("property=" +:+ dq +:+ "og:description" +:+ dq) (text r)
               || contains ("name=" +:+ dq +:+ "twitter:description" +:+ dq) (text r)
       then Ret (true, PDict [("source", PStr "x-og")])
       else if contains "followers" txt || contains "following" txt
               || contains "tweets" txt
       then Ret (true, PDict [("source", PStr "x-text-hint")])
       else Ret Absent)
    (fun _ => Ret Absent).

Definition check_youtube (username : string) : Py (bool * pyval) :=
  let url := "https://www.youtube.com/@" +:+ username in
  try_except Exception
    (r ← session_get url;
     if status_code r =? 404 then Ret Absent
     else
       let txt := lower (text r) in
       if contains "channel does not exist" txt || contains "no longer available" txt
       then Ret Absent
       else if contains "channelid" (lower txt)
               || contains "subscribercounttext" (lower txt)
       then Ret (true, PDict [("source", PStr "youtube-html")])
       else
         let title := _title_from_html (content r) in
         if nonempty title && negb (contains "youtube" (lower title))
         then Ret (true, PDict [("source", PStr "youtube-title");
                                ("title", PStr title)])
         else Ret Absent)
    (fun _ => Ret Absent).

Definition check_instagram (username : string) : Py (bool * pyval) :=
  let url := "https://www.instagram.com/" +:+ username +:+ "/" in
  try_except Exception
    (r ← session_get url;
     if status_code r =? 404 then Ret Absent
     else
       let txt := lower (text r) in
       if contains "sorry, this page isn't available" txt
          || contains "page isn't available" txt
       then Ret Absent
       else if contains (dq +:+ "is_private" +:+ dq +:+ ":") txt
               || contains (dq +:+ "graphql" +:+ dq) txt
               || contains "window._sharedData" txt
       then Ret (true, PDict [("source", PStr "instagram-embedded-json");
                              ("title", PStr (_title_from_html (content r)))])
       else
         let title := _title_from_html (content r) in
         if nonempty title && negb (contains "instagram" (lower title))
         then Ret (true, PDict [("source", PStr "instagram-title");
                                ("title", PStr title)])
         else Ret Absent)
    (fun _ => Ret Absent).

Definition check_tiktok (username : string) : Py (bool * pyval) :=
  let url := "https://www.tiktok.com/@" +:+ username in
  try_except Exception
    (r ← session_get url;
     if status_code r =? 404 then Ret Absent
     else
       let txt := lower (text r) in
       if contains "page not found" txt || contains "user not found" txt
          || contains "couldn't find this account" txt
       then Ret Absent
       else if contains "window.__INIT_PROPS" txt
               || contains (dq +:+ "userInfo" +:+ dq) txt
       then Ret (true, PDict [("source", PStr "tiktok-html-json")])
       else
         let title := _title_from_html (content r) in
         if nonempty title
         then Ret (true, PDict [("title", PStr title)])
         else Ret Absent)
    (fun _ => Ret Absent).

Definition check_steam (username : string) : Py (bool * pyval) :=
  try_except Exception
    (r ← session_get ("https://steamcommunity.com/id/" +:+ username +:+ "/?xml=1");
     if (status_code r =? 200) && contains "<error>" (text r) then Ret Absent
     else if status_code r =? 200
     then Ret (true, PDict [("source", PStr "steam-xml")])
     else
       r2 ← session_get ("https://steamcommunity.com/id/" +:+ username);
       if status_code r2 =? 200 then
         let txt := lower (text r2) in
         if contains "error" txt && contains "profile" txt then Ret Absent
         else Ret (true, PDict [("source", PStr "steam-html")])
       else Ret Absent)
    (fun _ => Ret Absent).

Definition check_linkedin (username : string) : Py (bool * pyval) :=
  let url := "https://www.linkedin.com/in/" +:+ username +:+ "/" in
  try_except Exception
    (r ← session_get url;
     if status_code r =? 404 then Ret Absent
     else
       let txt := lower (text r) in
       if contains "profile not found" txt || contains "profile not available" txt
       then Ret Absent
       else
         let title := _title_from_html (content r) in
         if contains "sign in" txt && contains "linkedin" (lower title)
         then Ret Absent
         else if nonempty title && negb (contains "linkedin" (lower title))
                 && (2 <=? count_words false (characters title))%nat
         then Ret (true, PDict [("source", PStr "linkedin-title");
                                ("title", PStr title)])
         else if contains ("property=" +:+ dq +:+ "og:title" +:+ dq) (text r)
                 || contains ("name=" +:+ dq +:+ "og:title" +:+ dq) (text r)
         then Ret (true, PDict [("source", PStr "linkedin-og");
                                ("title", PStr title)])
         else Ret Absent)
    (fun _ => Ret Absent).

(** ** The platform map *)

Definition GENERIC_TEMPLATES : list (string * string) :=
  [("github", "https://github.com/{u}");
   ("gitlab", "https://gitlab.com/{u}");
   ("reddit", "https://www.reddit.com/user/{u}/");
   ("stack_overflow", "https://stackoverflow.com/users/story/{u}");
   ("tiktok", "https://www.tiktok.com/@{u}");
   ("youtube", "https://www.youtube.com/@{u}");
   ("medium", "https://medium.com/@{u}");
   ("devto", "https://dev.to/{u}");
   ("pinterest", "https://www.pinterest.com/{u}/");
   ("soundcloud", "https://soundcloud.com/{u}");
   ("vimeo", "https://vimeo.com/{u}");
   ("steam", "https://steamcommunity.com/id/{u}");
   ("keybase", "https://keybase.io/{u}");
   ("instagram", "https://www.instagram.com/{u}/");
   ("facebook", "https://www.facebook.com/{u}");
   ("x", "https://x.com/{u}");
   ("kaggle", "https://www.kaggle.com/{u}");
   ("hackernews", "https://news.ycombinator.com/user?id={u}");
   ("linkedin", "https://www.linkedin.com/in/{u}/")].

Definition PLATFORM_CHECKERS : list (string * (string -> Py (bool * pyval))) :=
  [("github", check_github);
   ("gitlab", check_gitlab);
   ("reddit", check_reddit);
   ("stack_overflow", check_stackoverflow);
   ("tiktok", check_tiktok);
   ("youtube", check_youtube);
   ("medium", fun u => check_generic "https://medium.com/@{u}" u);
   ("devto", fun u => check_generic "https://dev.to/{u}" u);
   ("pinterest", fun u => check_generic "https://www.pinterest.com/{u}/" u);
   ("soundcloud", fun u => check_generic "https://soundcloud.com/{u}" u);
   ("vimeo", fun u => check_generic "https://vimeo.com/{u}" u);
   ("steam", check_steam);
   ("keybase", fun u => check_generic "https://keybase.io/{u}" u);
   ("instagram", check_instagram);
   ("facebook", fun u => check_generic "https://www.facebook.com/{u}" u);
   ("x", check_x);
   ("kaggle", fun u => check_generic "https://www.kaggle.com/{u}" u);
   ("hackernews", check_hackernews);
   ("linkedin", check_linkedin)].


(** ** Worker *)

Definition template_of (platform : string) : string :=
  default "{u}" (assoc platform GENERIC_TEMPLATES).

(** The call of the checker in [worker_check]: the registered one, or the
    generic one on the platform's template. *)
Definition call_checker (platform username : string) : Py (bool * pyval) :=
  match assoc platform PLATFORM_CHECKERS with
  | Some checker => checker username
  | None => check_generic (template_of platform) username
  end.

(** [time.sleep(delay)] comes after the [try] statement: what it raises is
    not caught. *)
Definition worker_check (platform username : string) (delay : Delay) : Py Hit :=
  let url := format_u (template_of platform) username in
  stop ← read_STOP;
  if (stop : bool) then Ret (mkHit platform url None (PDict []) true)
  else
    out ← try_except Exception
      ('(found, meta) ← call_checker platform username;
       Ret (mkHit platform url (Some found) meta false))
      (fun e => Ret (mkHit platform url (Some false)
                       (PDict [("error", PStr (message e))]) false));
    _ ← time_sleep delay;
    Ret out.

(** ** Scan orchestration *)

(** The [for p in platforms] loop of [scan_username], [results] being the
    list built so far. *)
Fixpoint scan_username_loop (username : string) (delay : Delay)
    (platforms : list string) (results : list Hit) : Py (list Hit) :=
  match platforms with
  | [] => Ret results
  | p :: rest =>
      h ← worker_check p username delay;
      stop ← read_STOP;
      if (stop : bool) then Ret (results ++ [h])
      else scan_username_loop username delay rest (results ++ [h])
  end.

Definition scan_username (username : string) (platforms : list string)
    (delay : Delay) : Py (list Hit) :=
  scan_username_loop username delay platforms [].

(** The dict under "gravatar"; [None] is a key that is absent. *)
Record Gravatar : Type := mkGravatar {
  gravatar_json_url : option string;
  gravatar_img_url : option string;
  profile : option pyval
}.

Definition gravatar_json (h : string) : string :=
  "https://www.gravatar.com/" +:+ h +:+ ".json".

Definition gravatar_img (h : string) : string :=
  "https://www.gravatar.com/avatar/" +:+ h +:+ "?d=404".

(** The first [try] statement of [scan_email].  When the digest cannot be
    computed the dict stays empty and nothing is requested; otherwise the two
    URLs are stored before the request is made, so they are in the result
    whether or not the lookup fails. *)
Definition gravatar_lookup (email : string) : Py Gravatar :=
  match gravatar_hash email with
  | None => Ret (mkGravatar None None None)
  | Some h =>
      prof ← try_except Exception
        (r ← session_get (gravatar_json h);
         if status_code r =? 200 then j ← r_json r; Ret (Some j) else Ret None)
        (fun _ => Ret None);
      Ret (mkGravatar (Some (gravatar_json h)) (Some (gravatar_img h)) prof)
  end.

Record EmailScan : Type := mkEmailScan {
  email_of : string;
  gravatar : Gravatar;
  platform_hits : list (string * list Hit);
  username_candidates : list string
}.

(** The [for u in candidates] loop of [scan_email]. *)
Fixpoint scan_email_loop (platforms : list string) (delay : Delay)
    (candidates : list string) (hits : list (string * list Hit))
    : Py (list (string * list Hit)) :=
  match candidates with
  | [] => Ret hits
  | u :: rest =>
      rs ← scan_username u platforms delay;
      stop ← read_STOP;
      if (stop : bool) then Ret (hits ++ [(u, rs)])
      else scan_email_loop platforms delay rest (hits ++ [(u, rs)])
  end.

Definition scan_email (email : string) (platforms : list string)
    (delay : Delay) (also_derive : bool) : Py EmailScan :=
  grav ← gravatar_lookup email;
  let candidates := if also_derive then derive_candidates email else [] in
  hits ← scan_email_loop platforms delay candidates [];
  Ret (mkEmailScan email grav hits candidates).

(** The record of a check that found [STOP] set. *)
Definition skipped_hit (p u : string) : Hit :=
  mkHit p (format_u (template_of p) u) None (PDict []) true.

(** Cancellation takes effect after platform index [k] has been processed:
    the flag is clear when the check of index [k] starts, and it is set at the
    latest just after the loop has read it behind that check.  [collected] is
    what the scan has gathered by then. *)
Definition cancelled_after (env : Env) (u : string) (ps : list string)
    (d : Delay) (w : World) (k : nat) (collected : list Hit) : Prop :=
  exists p rs1 w1 hk w2,
    ps !! k = Some p /\
    run env (scan_username u (take k ps) d) w = (inl rs1, w1) /\
    STOP w1 = false /\
    run env (worker_check p u d) w1 = (inl hk, w2) /\
    STOP (tick env w2) = true /\
    collected = rs1 ++ [hk].

(** The facts about the records of a scan that the reports rely on. *)
Definition well_formed_hit (u : string) (h : Hit) : Prop :=
  url h = format_u (template_of (platform h)) u /\
  evidence_shape (platform h) (inl (true, meta h)) /\
  ((completed h /\ skipped h = false) \/ h = skipped_hit (platform h) u).

(** ** The report *)

(** [--type] *)
Inductive TargetType : Type := TypeAuto | TypeUsername | TypeEmail.

(** The command-line arguments that decide what is scanned and reported;
    the paths [--out] and [--csv] and the flag [--summary], which only
    concern files and the console, are left out. *)
Record Args : Type := mkArgs {
  arg_target : string;
  arg_type : TargetType;
  arg_platforms : list string;
  arg_timeout : Z;
  arg_delay : Delay;
  arg_concurrency : Z;
  arg_also_derive : bool;
  arg_name : string;
  arg_author : string;
  arg_only_found : bool
}.

Record Params : Type := mkParams {
  par_platforms : list string;
  par_timeout : Z;
  par_delay : Delay;
  par_concurrency : Z
}.

(** The value under "email_scan": what [scan_email] returned, or its
    reduction to the positive hits, which has no key "email". *)
Record EmailScanDict : Type := mkEmailScanDict {
  es_email : option string;
  es_gravatar : Gravatar;
  es_username_candidates : list string;
  es_platform_hits : list (string * list Hit)
}.

(** The dict [results] of [main]; an optional field is a key that may be
    absent. *)
Record Results : Type := mkResults {
  res_name : string;
  res_author : string;
  res_tool : string;
  res_version : string;
  res_timestamp : Z;
  res_params : Params;
  res_email : option string;
  res_email_scan : option EmailScanDict;
  res_username : option string;
  res_hits : option (list Hit);
  res_found : option (list Hit)
}.

(** [h.get("exists") is True] *)
Definition is_found (h : Hit) : Prop := exists_ h = Some true.

#[global] Instance is_found_dec (h : Hit) : Decision (is_found h).
Proof. unfold is_found. apply _. Defined.

(** The loop that builds [ph] in [main]: the positive hits of each
    candidate, candidates without any being dropped. *)
Fixpoint positive_hits (ph : list (string * list Hit)) : list (string * list Hit) :=
  match ph with
  | [] => []
  | (u, hits) :: rest =>
      match filter is_found hits with
      | [] => positive_hits rest
      | pos => (u, pos) :: positive_hits rest
      end
  end.

(** The list [platforms] of [main]. *)
Definition scanned_platforms (args : Args) : list string :=
  let platforms := arg_platforms args in
  if bool_decide ("twitch" ∈ platforms)
  then filter (fun p => p <> "twitch") platforms
  else platforms.

(** Whether [main] takes the target for an e-mail address. *)
Definition mode_email (args : Args) : bool :=
  match arg_type args with
  | TypeAuto => contains "@" (strip (arg_target args))
  | TypeEmail => true
  | TypeUsername => false
  end.

(** The dict [results] as [main] has it when it reaches [finally]; [now] is
    [int(time.time())].  An exception that comes out of the scan takes [main]
    to [finally] with what [results] holds by then, the target and no scan.
    Printing and the writing of the files are left out, and so is what follows
    [finally], where such an exception goes on. *)
Definition main_results (args : Args) (now : Z) : Py Results :=
  let target := strip (arg_target args) in
  let platforms := scanned_platforms args in
  let params := mkParams platforms (arg_timeout args) (arg_delay args)
                         (arg_concurrency args) in
  let results := mkResults (arg_name args) (arg_author args) "ShadowHunter" "2.0"
                           now params in
  if mode_email args then
    scanned ← try_except Exception
      (scan ← scan_email target platforms (arg_delay args) (arg_also_derive args);
       Ret (Some scan))
      (fun _ => Ret None);
    match scanned with
    | Some scan =>
        let email_scan :=
          if arg_only_found args
          then mkEmailScanDict None (gravatar scan) (username_candidates scan)
                               (positive_hits (platform_hits scan))
          else mkEmailScanDict (Some (email_of scan)) (gravatar scan)
                               (username_candidates scan) (platform_hits scan) in
        Ret (results (Some target) (Some email_scan) None None None)
    | None => Ret (results (Some target) None None None None)
    end
  else
    scanned ← try_except Exception
      (hits ← scan_username target platforms (arg_delay args); Ret (Some hits))
      (fun _ => Ret None);
    match scanned with
    | Some hits =>
        let positives := filter is_found hits in
        Ret (results None None (Some target)
                     (Some (if arg_only_found args then positives else hits))
                     (Some positives))
    | None => Ret (results None None (Some target) None None)
    end.

(** A row of the CSV file. *)
Record Row : Type := mkRow {
  row_timestamp : Z;
  row_mode : string;
  row_subject : option string;
  row_platform : string;
  row_url : string;
  row_exists : option bool;
  row_title : pyval;
  row_source : pyval
}.

(** [(h.get("meta") or {}).get(key, "")] *)
Definition meta_get (m : pyval) (key : string) : Py pyval :=
  if truthy m then
    match m with
    | PDict d => Ret (default (PStr EmptyString) (assoc key d))
    | _ => Raise AttributeError
    end
  else Ret (PStr EmptyString).

Definition hit_row (ts : Z) (mode : string) (subject : option string) (h : Hit)
    : Py Row :=
  title ← meta_get (meta h) "title";
  source ← meta_get (meta h) "source";
  Ret (mkRow ts mode subject (platform h) (url h) (exists_ h) title source).

(** A [for h in hits: rows.append(...)] loop of [flatten_csv]. *)
Fixpoint hit_rows (ts : Z) (mode : string) (subject : option string)
    (hits : list Hit) (rows : list Row) : Py (list Row) :=
  match hits with
  | [] => Ret rows
  | h :: rest =>
      r ← hit_row ts mode subject h;
      hit_rows ts mode subject rest (rows ++ [r])
  end.

(** The loop over the candidates of [flatten_csv]. *)
Fixpoint derived_rows (ts : Z) (ph : list (string * list Hit)) (rows : list Row)
    : Py (list Row) :=
  match ph with
  | [] => Ret rows
  | (u, hits) :: rest =>
      rows' ← hit_rows ts "email-derived" (Some u) hits rows;
      derived_rows ts rest rows'
  end.

Definition flatten_csv (results : Results) : Py (list Row) :=
  let ts := res_timestamp results in
  match res_hits results with
  | Some hits =>
      let uname := default EmptyString (res_username results) in
      hit_rows ts "username" (Some uname) hits []
  | None =>
      match res_email_scan results with
      | Some es =>
          let grav := es_gravatar es in
          let known := match profile grav with
                       | Some j => truthy j
                       | None => false
                       end in
          derived_rows ts (es_platform_hits es)
            [mkRow ts "email" (res_email results) "gravatar"
                   (default EmptyString (gravatar_img_url grav)) (Some known)
                   (PStr EmptyString)
                   (PStr "gravatar")]
      | None => Ret []
      end
  end.

(** The rows [main] writes when [--csv] is given. *)
Definition csv_rows (args : Args) (results : Results) : Py (list Row) :=
  rows ← flatten_csv results;
  Ret (if arg_only_found args
       then filter (fun r => row_exists r = Some true \/ row_platform r = "gravatar")
                   rows
       else rows).

(** The value [flatten_csv] reads under [key] in an evidence it accepts. *)
Definition evidence_field (m : pyval) (key : string) : pyval :=
  match m with
  | PDict d => default (PStr EmptyString) (assoc key d)
  | _ => PStr EmptyString
  end.

(** An evidence [flatten_csv] accepts: falsy, or a mapping. *)
Definition readable (h : Hit) : Prop :=
  truthy (meta h) = true -> is_mapping (meta h).

#[global] Instance readable_dec (h : Hit) : Decision (readable h).
Proof.
  unfold readable, is_mapping.
  destruct (truthy (meta h)); [| left; discriminate].
  destruct (meta h); first [left; intros _; exact I | right; intros H; exact (H eq_refl)].
Defined.

(** A row that renders a record. *)
Definition renders (ts : Z) (mode : string) (subject : option string)
    (h : Hit) (r : Row) : Prop :=
  r = mkRow ts mode subject (platform h) (url h) (exists_ h)
            (evidence_field (meta h) "title") (evidence_field (meta h) "source").

(** All the records that a report holds, under "hits", under "found" and
    under the candidates of "email_scan". *)
Definition report_hits (results : Results) : list Hit :=
  default [] (res_hits results) ++ default [] (res_found results) ++
  match res_email_scan results with
  | Some es => concat (es_platform_hits es).*2
  | None => []
  end.

(** The records of the candidates, each with its candidate, in the order in
    which [flatten_csv] goes through them. *)
Definition hits_by_candidate (ph : list (string * list Hit)) : list (string * Hit) :=
  cr ← ph; (fun h => (cr.1, h)) <$> cr.2.

(** The row of the Gravatar lookup. *)
Definition gravatar_row (results : Results) (es : EmailScanDict) : Row :=
  mkRow (res_timestamp results) "email" (res_email results) "gravatar"
        (default EmptyString (gravatar_img_url (es_gravatar es)))
        (Some match profile (es_gravatar es) with
              | Some j => truthy j
              | None => false
              end)
        (PStr EmptyString) (PStr "gravatar").

(** ** More of the sample world *)

(** Every request raises a [RequestException]. *)
Definition down_env : Env :=
  mkEnv (fun _ _ => Fail (mkExn true "unreachable")) never.

(** Every request is answered with status 404 and an empty body. *)
Definition env_404 : Env :=
  mkEnv (fun _ _ => Respond (mkResponse 404 EmptyString EmptyString)) never.

(** Every request is answered with a page that has no title. *)
Definition untitled_env : Env :=
  mkEnv (fun _ _ => Respond (mkResponse 200 "<html></html>" "<html></html>")) never.

(** A world in which [STOP] is set. *)
Definition w_stopped : World := mkWorld true 0 [] [].

Definition sample_hit : Hit :=
  mkHit "medium" "https://medium.com/@bob" (Some true)
        (PDict [("title", PStr "Bob"); ("source", PStr "generic-title")]) false.

Definition sample_args : Args :=
  mkArgs "bob" TypeAuto ["medium"; "twitch"; "devto"] 10 (Seconds 150) 1 false
         "ShadowHunter v2.0" "MrDark0x7" false.

Definition sample_results (hits : option (list Hit))
    (email_scan : option EmailScanDict) : Results :=
  mkResults "ShadowHunter v2.0" "MrDark0x7" "ShadowHunter" "2.0" 1700000000
            (mkParams three_platforms 10 (Seconds 150) 1)
            (Some "bob@example.com") email_scan (Some "bob") hits None.

Definition sample_email_scan : EmailScanDict :=
  mkEmailScanDict (Some "bob@example.com")
    (mkGravatar (Some "https://www.gravatar.com/x.json")
                (Some "https://www.gravatar.com/avatar/x?d=404") (Some (PDict [])))
    ["bob"] [("bob", [sample_hit])].

(** ** Running monadic code *)

Lemma run_bind {A B : Type} (env : Env) (m : Py A) (f : A -> Py B) (w : World) :
  run env (m ≫= f) w =
  match run env m w with
  | (inl a, w') => run env (f a) w'
  | (inr e, w') => (inr e, w')
  end.
Proof.
  unfold mbind, Py_bind. revert w.
  induction m as [a | e | u k IH | d k IH | k IH]; intros w; simpl; auto.
Qed.

Lemma run_try_except {A : Type} (env : Env) (catches : exn -> bool)
    (m : Py A) (h : exn -> Py A) (w : World) :
  run env (try_except catches m h) w =
  match run env m w with
  | (inl a, w') => (inl a, w')
  | (inr e, w') => if catches e then run env (h e) w' else (inr e, w')
  end.
Proof.
  revert w.
  induction m as [a | e | u k IH | d k IH | k IH]; intros w; simpl; auto.
  destruct (catches e); reflexivity.
Qed.

Lemma run_session_get (env : Env) (u : string) (w : World) :
  run env (session_get u) w =
  (match network env (length (requests w)) u with
   | Respond r => inl r
   | Fail e => inr e
   end, tick env (log_request u w)).
Proof.
  unfold session_get. simpl.
  destruct (network env (length (requests w)) u); reflexivity.
Qed.

Lemma run_read_STOP (env : Env) (w : World) :
  run env read_STOP w = (inl (STOP w), tick env w).
Proof. reflexivity. Qed.

(** ** The flag over time *)

Create HintDb flag.

(** Nothing resets [STOP]. *)
Lemma STOP_tick (env : Env) (w : World) :
  STOP w = true -> STOP (tick env w) = true.
Proof. intros H. unfold tick. simpl. rewrite H. reflexivity. Qed.

Lemma STOP_stays {A : Type} (env : Env) (m : Py A) (w : World) :
  STOP w = true -> STOP (run env m w).2 = true.
Proof.
  revert w.
  induction m as [a | e | u k IH | d k IH | k IH]; intros w H; simpl; auto;
    apply IH; apply STOP_tick; exact H.
Qed.

Lemma never_signalled_tick (env : Env) (w : World) :
  never_signalled env w -> never_signalled env (tick env w).
Proof.
  intros [H1 H2]. split; simpl.
  - rewrite H1, (H2 (clock w)); [reflexivity | lia].
  - intros t Ht. apply H2. lia.
Qed.

Lemma never_signalled_run {A : Type} (env : Env) (m : Py A) (w : World) :
  never_signalled env w -> never_signalled env (run env m w).2.
Proof.
  revert w.
  induction m as [a | e | u k IH | d k IH | k IH]; intros w H; simpl; auto;
    apply IH; apply never_signalled_tick;
    destruct H as [H1 H2]; split; simpl; auto.
Qed.

#[local] Hint Resolve STOP_tick STOP_stays never_signalled_tick
  never_signalled_run : flag.

(** ** Substrings *)

Lemma append_nil (t : string) : EmptyString +:+ t = t.
Proof. reflexivity. Qed.

Lemma append_cons (c : Ascii.ascii) (s t : string) :
  String c s +:+ t = String c (s +:+ t).
Proof. reflexivity. Qed.

Lemma prefix_spec (p s : string) :
  String.prefix p s = true <-> exists post, s = p +:+ post.
Proof.
  revert s. induction p as [| a p IH]; intros s.
  - destruct s; simpl; split; eauto.
  - destruct s as [| b s]; simpl.
    + split; [discriminate | intros [post H]; discriminate].
    + destruct (Ascii.ascii_dec a b) as [-> | Hne].
      * rewrite IH. split; intros [post H]; exists post;
          rewrite append_cons in *; congruence.
      * split; [discriminate |].
        intros [post H]. rewrite append_cons in H. congruence.
Qed.

Lemma contains_nil (p : string) :
  contains p EmptyString = String.prefix p EmptyString.
Proof. apply orb_false_r. Qed.

Lemma contains_cons (p : string) (c : Ascii.ascii) (s : string) :
  contains p (String c s) = String.prefix p (String c s) || contains p s.
Proof. reflexivity. Qed.

Lemma contains_spec (p s : string) : contains p s = true <-> occurs p s.
Proof.
  split.
  - induction s as [| c s IH]; intros H.
    + rewrite contains_nil in H. apply prefix_spec in H as [post H].
      exists EmptyString, post. exact H.
    + rewrite contains_cons in H. apply orb_true_iff in H as [H | H].
      * apply prefix_spec in H as [post H]. exists EmptyString, post. exact H.
      * destruct (IH H) as (pre & post & ->). exists (String c pre), post.
        reflexivity.
  - intros (pre & post & ->). induction pre as [| c pre IH].
    + rewrite append_nil.
      assert (H : String.prefix p (p +:+ post) = true) by (apply prefix_spec; eauto).
      destruct (p +:+ post).
      * rewrite contains_nil. exact H.
      * rewrite contains_cons, H. reflexivity.
    + rewrite append_cons, contains_cons, IH. apply orb_true_r.
Qed.

Lemma any_phrase_in_spec (phrases : list string) (txt : string) :
  any_phrase_in phrases txt = true <-> exists p, p ∈ phrases /\ occurs p txt.
Proof.
  induction phrases as [| q rest IH]; simpl.
  - split; [discriminate | intros (p & Hp & _); inversion Hp].
  - destruct (contains q txt) eqn:E.
    + split; [| reflexivity]. intros _. exists q. split; [left |].
      apply contains_spec. exact E.
    + rewrite IH. split.
      * intros (p & Hp & Ho). exists p. split; [right; exact Hp | exact Ho].
      * intros (p & Hp & Ho). apply elem_of_cons in Hp as [-> | Hp].
        -- apply contains_spec in Ho. congruence.
        -- eauto.
Qed.

(** ** The generic checker *)

Lemma run_check_generic (env : Env) (tpl u : string) (w : World) :
  run env (check_generic tpl u) w =
  (match network env (length (requests w)) (format_u tpl u) with
   | Fail e => if is_request_exception e then inl Absent else inr e
   | Respond r =>
       inl (if status_code r =? 404 then Absent
            else if any_phrase_in generic_negatives (lower (text r)) then Absent
            else if nonempty (_title_from_html (content r))
            then (true, PDict [("title", PStr (_title_from_html (content r)));
                               ("source", PStr "generic-title")])
            else (status_code r =? 200, PDict []))
   end, tick env (log_request (format_u tpl u) w)).
Proof.
  unfold check_generic. rewrite run_try_except, run_bind, run_session_get.
  destruct (network env (length (requests w)) (format_u tpl u)) as [r | e].
  - destruct (status_code r =? 404); [reflexivity |].
    destruct (any_phrase_in _ _); [reflexivity |].
    destruct (nonempty _); reflexivity.
  - unfold RequestException. destruct (is_request_exception e); reflexivity.
Qed.

(** C1.  The generic checker asks for the template with [{u}] replaced by the
    identifier and classifies the answer: status 404 is Absent; a lowercased
    body in which one of the fixed negative phrases occurs ("user not found"
    is one) is Absent; otherwise a non-empty extracted title is Present, with
    the title and the source "generic-title" as evidence; otherwise the answer
    is Present exactly when the status is 200; and a transport failure (an
    exception of the class [RequestException]) is Absent, not an exception. *)
Theorem check_generic_classification (env : Env) (tpl u : string) (w : World) :
  let answer := network env (length (requests w)) (format_u tpl u) in
  let result := (run env (check_generic tpl u) w).1 in
  "user not found" ∈ generic_negatives /\
  (forall e, answer = Fail e -> is_request_exception e = true ->
     result = inl (false, PDict [])) /\
  (forall r, answer = Respond r ->
     let negative := exists p, p ∈ generic_negatives /\ occurs p (lower (text r)) in
     let title := _title_from_html (content r) in
     (status_code r = 404 -> result = inl (false, PDict [])) /\
     (negative -> result = inl (false, PDict [])) /\
     (status_code r <> 404 -> ~ negative -> title <> EmptyString ->
        result = inl (true, PDict [("title", PStr title);
                                   ("source", PStr "generic-title")])) /\
     (status_code r <> 404 -> ~ negative -> title = EmptyString ->
        result = inl (bool_decide (status_code r = 200), PDict []))).
Proof using xpath_title.
  intros answer result. subst answer result. rewrite run_check_generic.
  cbn [fst].
  split; [| split].
  - unfold generic_negatives. do 2 apply list_elem_of_further. apply list_elem_of_here.
  - intros e -> He. rewrite He. reflexivity.
  - intros r ->.
    pose proof (any_phrase_in_spec generic_negatives (lower (text r))) as Hneg.
    set (title := _title_from_html (content r)).
    repeat split.
    + intros ->. reflexivity.
    + intros H. apply Hneg in H. rewrite H.
      destruct (status_code r =? 404); reflexivity.
    + intros H404 Hn Ht. apply Z.eqb_neq in H404. rewrite H404.
      destruct (any_phrase_in _ _); [exfalso; apply Hn, Hneg; reflexivity |].
      destruct title; [congruence | reflexivity].
    + intros H404 Hn Ht. apply Z.eqb_neq in H404. rewrite H404.
      destruct (any_phrase_in _ _); [exfalso; apply Hn, Hneg; reflexivity |].
      rewrite Ht. cbn [nonempty]. f_equal. f_equal.
      destruct (Z.eqb_spec (status_code r) 200) as [E | E].
      * rewrite bool_decide_eq_true_2; auto.
      * rewrite bool_decide_eq_false_2; auto.
Qed.

(** An exception of another class is not caught by [check_generic]; it is
    [worker_check] that catches it. *)
Lemma check_generic_propagates (env : Env) (tpl u : string) (w : World) (e : exn) :
  network env (length (requests w)) (format_u tpl u) = Fail e ->
  is_request_exception e = false ->
  run env (check_generic tpl u) w = (inr e, tick env (log_request (format_u tpl u) w)).
Proof.
  intros H He. rewrite run_check_generic, H, He. reflexivity.
Qed.

(** ** The Stack Overflow checker *)

Lemma isdigit_spec (u : string) :
  isdigit u = true <->
  u <> EmptyString /\ Forall (fun ch => unicode_digit ch = true) (characters u).
Proof.
  unfold isdigit. rewrite andb_true_iff.
  assert (Hn : nonempty u = true <-> u <> EmptyString).
  { destruct u; cbn; split; congruence. }
  assert (Hf : forall l, forallb unicode_digit l = true <->
                         Forall (fun ch => unicode_digit ch = true) l).
  { induction l as [| ch l IH]; cbn.
    - split; [constructor | reflexivity].
    - rewrite andb_true_iff, IH. split.
      + intros [H1 H2]. constructor; assumption.
      + intros H. inversion H; subst. split; assumption. }
  rewrite Hn, Hf. reflexivity.
Qed.

(** C7.  For an identifier that is not composed entirely of digits (it is
    empty, or one of its characters is not a digit), [check_stackoverflow]
    answers Absent and leaves the world as it found it: no request is made.
    The digits are the characters [str.isdigit] accepts. *)
Theorem check_stackoverflow_non_digit (env : Env) (u : string) (w : World) :
  u = EmptyString \/ Exists (fun ch => unicode_digit ch = false) (characters u) ->
  run env (check_stackoverflow u) w = (inl (false, PDict []), w) /\
  requests (run env (check_stackoverflow u) w).2 = requests w.
Proof.
  intros H.
  assert (E : isdigit u = false).
  { destruct (isdigit u) eqn:D; [| reflexivity].
    apply isdigit_spec in D as [Hne Hall]. destruct H as [-> | Hex]; [congruence |].
    exfalso. induction Hex as [ch l Hch | ch l _ IH].
    - inversion Hall; subst. congruence.
    - inversion Hall; subst. auto. }
  unfold check_stackoverflow. rewrite E. simpl. split; reflexivity.
Qed.

(** An identifier made of digits is looked up: one request, whatever the
    answer. *)
Lemma check_stackoverflow_digits (env : Env) (u : string) (w : World) :
  isdigit u = true ->
  requests (run env (check_stackoverflow u) w).2
  = requests w ++ ["https://stackoverflow.com/users/" +:+ u].
Proof.
  intros E. unfold check_stackoverflow. rewrite E. cbn [negb].
  rewrite run_try_except, run_bind, run_session_get.
  destruct (network env (length (requests w)) _) as [r | e]; [| reflexivity].
  destruct (status_code r =? 404); [reflexivity |].
  destruct (any_phrase_in _ _); reflexivity.
Qed.

(** ** The worker *)

(** The two ways a call of the checker ends: with an answer, or with an
    exception. *)
Ltac case_checker env p u w :=
  destruct (run env (call_checker p u) (tick env w))
    as [[[found evidence] | e] w1].

Lemma run_worker_check (env : Env) (p u : string) (d : N) (w : World) :
  run env (worker_check p u (Seconds d)) w =
  let url := format_u (template_of p) u in
  if STOP w then (inl (mkHit p url None (PDict []) true), tick env w)
  else
    match run env (call_checker p u) (tick env w) with
    | (inl (found, evidence), w1) =>
        (inl (mkHit p url (Some found) evidence false), tick env (log_nap d w1))
    | (inr e, w1) =>
        (inl (mkHit p url (Some false) (PDict [("error", PStr (message e))]) false),
         tick env (log_nap d w1))
    end.
Proof.
  unfold worker_check. rewrite run_bind, run_read_STOP. simpl.
  destruct (STOP w); [reflexivity |].
  rewrite run_bind, run_try_except, run_bind.
  case_checker env p u w;
    reflexivity.
Qed.


Lemma worker_check_total (env : Env) (p u : string) (d : N) (w : World) :
  exists h w', run env (worker_check p u (Seconds d)) w = (inl h, w') /\ platform h = p.
Proof.
  rewrite run_worker_check. cbn zeta. destruct (STOP w).
  - eexists _, _. split; reflexivity.
  - case_checker env p u w;
      eexists _, _; split; reflexivity.
Qed.


Lemma run_worker_check_refused (env : Env) (p u : string) (refusal : exn)
    (w : World) :
  run env (worker_check p u (Refused refusal)) w =
  if STOP w
  then (inl (mkHit p (format_u (template_of p) u) None (PDict []) true), tick env w)
  else (inr refusal, (run env (call_checker p u) (tick env w)).2).
Proof.
  unfold worker_check. rewrite run_bind, run_read_STOP. cbn [fst snd].
  destruct (STOP w); [reflexivity |].
  rewrite run_bind, run_try_except, run_bind.
  case_checker env p u w; reflexivity.
Qed.


(** ** The scan over the platforms *)

Lemma run_scan_loop_cons (env : Env) (u : string) (delay : Delay) (p : string)
    (rest : list string) (acc : list Hit) (w : World) :
  run env (scan_username_loop u delay (p :: rest) acc) w =
  match run env (worker_check p u delay) w with
  | (inl h, w1) =>
      if STOP w1 then (inl (acc ++ [h]), tick env w1)
      else run env (scan_username_loop u delay rest (acc ++ [h])) (tick env w1)
  | (inr e, w1) => (inr e, w1)
  end.
Proof.
  cbn [scan_username_loop]. rewrite run_bind.
  destruct (run env (worker_check p u delay) w) as [[h | e] w1]; [| reflexivity].
  rewrite run_bind, run_read_STOP. destruct (STOP w1); reflexivity.
Qed.

(** A check that starts with the flag clear returns a completed record for
    its platform. *)
Lemma worker_check_clear (env : Env) (p u : string) (d : N) (w : World) :
  STOP w = false ->
  exists h w', run env (worker_check p u (Seconds d)) w = (inl h, w') /\
    platform h = p /\ completed h /\ skipped h = false.
Proof.
  intros E. rewrite run_worker_check. cbn zeta. rewrite E.
  case_checker env p u w;
    eexists _, _; (split; [reflexivity |]); cbn; unfold completed; cbn; eauto.
Qed.

(** A check that starts with the flag set returns the skip record. *)
Lemma worker_check_set (env : Env) (p u : string) (d : N) (w : World) :
  STOP w = true ->
  run env (worker_check p u (Seconds d)) w = (inl (skipped_hit p u), tick env w).
Proof. intros E. rewrite run_worker_check. cbn zeta. rewrite E. reflexivity. Qed.

Lemma scan_loop_never_signalled (env : Env) (u : string) (d : N)
    (ps : list string) (acc : list Hit) (w : World) :
  never_signalled env w ->
  exists rs w', run env (scan_username_loop u (Seconds d) ps acc) w = (inl (acc ++ rs), w') /\
    platform <$> rs = ps /\ Forall completed rs.
Proof.
  revert acc w. induction ps as [| p rest IH]; intros acc w Hq.
  - exists [], w. rewrite app_nil_r. repeat split. constructor.
  - rewrite run_scan_loop_cons.
    pose proof (never_signalled_run env (worker_check p u (Seconds d)) w Hq) as Hq1.
    destruct (worker_check_clear env p u d w (proj1 Hq)) as (h & w1 & E & Hp & Hc & _).
    rewrite E in *. cbn [snd] in Hq1. rewrite (proj1 Hq1).
    destruct (IH (acc ++ [h]) (tick env w1) (never_signalled_tick env w1 Hq1))
      as (rs & w' & E' & Hps & Hall).
    exists (h :: rs), w'. rewrite E', <- app_assoc. cbn. rewrite Hp, Hps.
    repeat split. constructor; assumption.
Qed.


(** A run of the loop that ends with the flag clear has gone through the
    whole list, and all its records are completed. *)
Lemma scan_loop_clear (env : Env) (u : string) (d : N) (ps : list string)
    (acc : list Hit) (w : World) (rs : list Hit) (w1 : World) :
  run env (scan_username_loop u (Seconds d) ps acc) w = (inl rs, w1) ->
  STOP w1 = false ->
  exists rs', rs = acc ++ rs' /\ platform <$> rs' = ps /\ Forall completed rs'.
Proof.
  revert acc w. induction ps as [| p rest IH]; intros acc w E Hc.
  - cbn in E. inversion E; subst. exists []. rewrite app_nil_r.
    repeat split. constructor.
  - rewrite run_scan_loop_cons in E.
    destruct (STOP w) eqn:Ew.
    + rewrite (worker_check_set env p u d w Ew) in E.
      rewrite (STOP_tick env w Ew) in E. inversion E; subst.
      assert (STOP (tick env (tick env w)) = true) by auto with flag.
      congruence.
    + destruct (worker_check_clear env p u d w Ew) as (h & w2 & E2 & Hp & Hh & _).
      rewrite E2 in E. destruct (STOP w2) eqn:E3.
      * inversion E; subst.
        assert (STOP (tick env w2) = true) by auto with flag. congruence.
      * destruct (IH _ _ E Hc) as (rs' & -> & Hps & Hall).
        exists (h :: rs'). rewrite <- app_assoc. cbn. rewrite Hp, Hps.
        repeat split. constructor; assumption.
Qed.

(** Such a run is the beginning of the run over any longer list. *)
Lemma scan_loop_app (env : Env) (u : string) (d : N) (ps1 ps2 : list string)
    (acc : list Hit) (w : World) (rs1 : list Hit) (w1 : World) :
  run env (scan_username_loop u (Seconds d) ps1 acc) w = (inl rs1, w1) ->
  STOP w1 = false ->
  run env (scan_username_loop u (Seconds d) (ps1 ++ ps2) acc) w =
  run env (scan_username_loop u (Seconds d) ps2 rs1) w1.
Proof.
  revert acc w. induction ps1 as [| p rest IH]; intros acc w E Hc.
  - cbn in E. inversion E; subst. reflexivity.
  - rewrite <- app_comm_cons, run_scan_loop_cons.
    rewrite run_scan_loop_cons in E.
    destruct (run env (worker_check p u (Seconds d)) w) as [[h | e] w2]; [| discriminate].
    destruct (STOP w2) eqn:E3.
    + inversion E; subst.
      assert (STOP (tick env w2) = true) by auto with flag. congruence.
    + apply IH; assumption.
Qed.

Lemma filter_completed_all (rs : list Hit) :
  Forall completed rs -> filter completed rs = rs.
Proof.
  induction 1 as [| h rs Hh _ IH]; [reflexivity |].
  rewrite filter_cons_True by exact Hh. rewrite IH. reflexivity.
Qed.

Lemma scan_username_cancelled_split (env : Env) (u : string) (d : N)
    (ps1 : list string) (p : string) (ps2 : list string) (w : World)
    (rs1 : list Hit) (w1 : World) (hk : Hit) (w2 : World) :
  run env (scan_username u ps1 (Seconds d)) w = (inl rs1, w1) ->
  STOP w1 = false ->
  run env (worker_check p u (Seconds d)) w1 = (inl hk, w2) ->
  STOP (tick env w2) = true ->
  exists rs w', run env (scan_username u (ps1 ++ p :: ps2) (Seconds d)) w = (inl rs, w') /\
    (rs = rs1 ++ [hk] \/
     exists q, head ps2 = Some q /\ rs = rs1 ++ [hk] ++ [skipped_hit q u]) /\
    Forall completed (rs1 ++ [hk]) /\
    platform <$> rs1 ++ [hk] = ps1 ++ [p].
Proof.
  unfold scan_username. intros E1 Hc1 Ek Hs.
  destruct (scan_loop_clear env u d ps1 [] w rs1 w1 E1 Hc1) as (rs' & -> & Hps & Hall).
  cbn [app] in *.
  destruct (worker_check_clear env p u d w1 Hc1) as (h & w2' & Ek' & Hp & Hh & _).
  rewrite Ek in Ek'. inversion Ek'; subst h w2'. clear Ek'.
  assert (Hall' : Forall completed (rs' ++ [hk])).
  { apply Forall_app. split; [exact Hall | constructor; [exact Hh | constructor]]. }
  assert (Hps' : platform <$> rs' ++ [hk] = ps1 ++ [p]).
  { rewrite fmap_app. cbn. rewrite Hps, Hp. reflexivity. }
  rewrite (scan_loop_app env u d ps1 (p :: ps2) [] w rs' w1 E1 Hc1).
  rewrite run_scan_loop_cons, Ek.
  destruct (STOP w2) eqn:E2.
  - eexists _, _. split; [reflexivity |]. auto.
  - destruct ps2 as [| q rest].
    + eexists _, _. split; [reflexivity |]. auto.
    + rewrite run_scan_loop_cons, (worker_check_set env q u d _ Hs).
      rewrite (STOP_tick env _ Hs).
      eexists _, _. split; [reflexivity |]. split; [| auto].
      right. exists q. rewrite <- app_assoc. auto.
Qed.

(** C4, as the code has it.  When cancellation takes effect after platform
    index [k] has been processed, the result of [scan_username] begins with
    all that was collected, which is exactly the completed outcomes of the
    result: [k + 1] of them, for the platforms up to and including index [k],
    in the order of the list.  At most one record follows, a skip. *)
Theorem scan_username_cancelled (env : Env) (u : string) (ps : list string)
    (d : N) (w : World) (k : nat) (collected : list Hit) :
  cancelled_after env u ps (Seconds d) w k collected ->
  exists rs w', run env (scan_username u ps (Seconds d)) w = (inl rs, w') /\
    collected `prefix_of` rs /\
    filter completed rs = collected /\
    length collected = S k /\
    platform <$> collected = take (S k) ps /\
    (length rs <= S (S k))%nat.
Proof.
  intros (p & rs1 & w1 & hk & w2 & Hk & E1 & Hc1 & Ek & Hs & ->).
  destruct (scan_username_cancelled_split env u d (take k ps) p (drop (S k) ps)
              w rs1 w1 hk w2 E1 Hc1 Ek Hs) as (rs & w' & E & Hrs & Hall & Hps).
  rewrite (take_drop_middle ps k p Hk) in E.
  assert (Hlen : length (rs1 ++ [hk]) = S k).
  { rewrite <- (length_fmap platform), Hps, length_app, length_take. cbn.
    apply lookup_lt_Some in Hk. lia. }
  exists rs, w'. split; [exact E |].
  assert (Htake : take (S k) ps = take k ps ++ [p]).
  { erewrite take_S_r by exact Hk. reflexivity. }
  destruct Hrs as [-> | (q & _ & ->)].
  - repeat split.
    + reflexivity.
    + apply filter_completed_all, Hall.
    + exact Hlen.
    + rewrite Hps, Htake. reflexivity.
    + lia.
  - repeat split.
    + rewrite app_assoc. apply prefix_app_r. reflexivity.
    + rewrite app_assoc, filter_app, (filter_completed_all _ Hall).
      rewrite filter_cons_False, filter_nil, app_nil_r; [reflexivity |].
      unfold completed. cbn. intros [? ?]. discriminate.
    + exact Hlen.
    + rewrite Hps, Htake. reflexivity.
    + rewrite app_assoc, length_app, Hlen. cbn. lia.
Qed.

(** ** The e-mail scan *)

Lemma requests_grow {A : Type} (env : Env) (m : Py A) (w : World) :
  requests w `prefix_of` requests (run env m w).2.
Proof.
  revert w.
  induction m as [a | e | x k IH | d k IH | k IH]; intros w; cbn [run snd];
    try reflexivity.
  - etransitivity; [| apply IH]. cbn. apply prefix_app_r. reflexivity.
  - etransitivity; [| apply IH]. reflexivity.
  - etransitivity; [| apply IH]. reflexivity.
Qed.

Lemma scan_username_total (env : Env) (u : string) (ps : list string) (d : N)
    (w : World) :
  exists rs w', run env (scan_username u ps (Seconds d)) w = (inl rs, w').
Proof.
  unfold scan_username. generalize (@nil Hit) as acc. revert w.
  induction ps as [| p rest IH]; intros w acc.
  - eexists _, _. reflexivity.
  - rewrite run_scan_loop_cons.
    destruct (worker_check_total env p u d w) as (h & w1 & E & _).
    rewrite E. destruct (STOP w1); [eexists _, _; reflexivity | apply IH].
Qed.

Lemma scan_email_loop_total (env : Env) (ps : list string) (d : N)
    (cands : list string) (hits : list (string * list Hit)) (w : World) :
  exists out w', run env (scan_email_loop ps (Seconds d) cands hits) w = (inl out, w').
Proof.
  revert hits w. induction cands as [| u rest IH]; intros hits w.
  - eexists _, _. reflexivity.
  - cbn [scan_email_loop]. rewrite run_bind.
    destruct (scan_username_total env u ps d w) as (rs & w1 & E). rewrite E.
    rewrite run_bind, run_read_STOP.
    destruct (STOP w1); [eexists _, _; reflexivity | apply IH].
Qed.

Lemma run_gravatar_request (env : Env) (jurl : string) (w : World) :
  run env
    (try_except Exception
       (r ← session_get jurl;
        if status_code r =? 200 then j ← r_json r; Ret (Some j) else Ret None)
       (fun _ => Ret None)) w
  = (inl match network env (length (requests w)) jurl with
         | Respond r =>
             if status_code r =? 200 then json_loads (content r) else None
         | Fail _ => None
         end, tick env (log_request jurl w)).
Proof.
  rewrite run_try_except, run_bind, run_session_get.
  destruct (network env (length (requests w)) jurl) as [r | e]; [| reflexivity].
  destruct (status_code r =? 200); [| reflexivity].
  rewrite run_bind. unfold r_json.
  destruct (json_loads (content r)); reflexivity.
Qed.

Lemma run_gravatar_lookup (env : Env) (email : string) (w : World) :
  run env (gravatar_lookup email) w =
  match gravatar_hash email with
  | None => (inl (mkGravatar None None None), w)
  | Some h =>
      (inl (mkGravatar (Some (gravatar_json h)) (Some (gravatar_img h))
              match network env (length (requests w)) (gravatar_json h) with
              | Respond r =>
                  if status_code r =? 200 then json_loads (content r) else None
              | Fail _ => None
              end),
       tick env (log_request (gravatar_json h) w))
  end.
Proof.
  unfold gravatar_lookup. destruct (gravatar_hash email) as [h |]; [| reflexivity].
  rewrite run_bind, run_gravatar_request. reflexivity.
Qed.

Lemma gravatar_lookup_total (env : Env) (email : string) (w : World) :
  exists grav w1, run env (gravatar_lookup email) w = (inl grav, w1).
Proof.
  rewrite run_gravatar_lookup. destruct (gravatar_hash email); eexists _, _; reflexivity.
Qed.

Lemma run_scan_email (env : Env) (email : string) (ps : list string)
    (delay : Delay) (also_derive : bool) (w : World) :
  let cands := if also_derive then derive_candidates email else [] in
  run env (scan_email email ps delay also_derive) w =
  match run env (gravatar_lookup email) w with
  | (inl grav, w1) =>
      match run env (scan_email_loop ps delay cands []) w1 with
      | (inl hits, w') => (inl (mkEmailScan email grav hits cands), w')
      | (inr e, w') => (inr e, w')
      end
  | (inr e, w1) => (inr e, w1)
  end.
Proof.
  intros cands. unfold scan_email. rewrite run_bind.
  destruct (run env (gravatar_lookup email) w) as [[grav | e] w1]; [| reflexivity].
  fold cands. rewrite run_bind.
  destruct (run env (scan_email_loop ps delay cands []) w1) as [[hits | e] w'];
    reflexivity.
Qed.

(** C8.  When the address, stripped and lowercased, has UTF-8 bytes, the key
    that [scan_email] puts into the two Gravatar URLs, the first of which is
    the first request it makes, is the hexadecimal MD5 digest of these bytes.
    For " Test@Example.com " that is the digest of "test@example.com",
    55502f40dc8b7c769880b10874abc9d0 ([str.lower] being what it is on ASCII
    text). *)
Theorem gravatar_key_is_md5_of_normalised_email (env : Env) (email : string)
    (ps : list string) (d : N) (also_derive : bool) (w : World) (bytes : list Z) :
  (forall s, Forall (fun c => code c < 128) (chars s) -> lower s = ascii_lower s) ->
  encode (lower (strip email)) = Some bytes ->
  let key := MD5.hexdigest bytes in
  (exists res w',
     run env (scan_email email ps (Seconds d) also_derive) w = (inl res, w') /\
     gravatar_json_url (gravatar res)
       = Some ("https://www.gravatar.com/" +:+ key +:+ ".json") /\
     gravatar_img_url (gravatar res)
       = Some ("https://www.gravatar.com/avatar/" +:+ key +:+ "?d=404") /\
     requests w' !! length (requests w)
       = Some ("https://www.gravatar.com/" +:+ key +:+ ".json")) /\
  gravatar_hash " Test@Example.com " = Some "55502f40dc8b7c769880b10874abc9d0" /\
  gravatar_hash "test@example.com" = Some "55502f40dc8b7c769880b10874abc9d0" /\
  encode "test@example.com"
    = Some [116; 101; 115; 116; 64; 101; 120; 97; 109; 112; 108; 101; 46; 99; 111; 109].
Proof.
  intros Hascii Hbytes key. split.
  - rewrite run_scan_email, run_gravatar_lookup.
    unfold gravatar_hash. rewrite Hbytes. cbn [fmap option_fmap option_map].
    fold key.
    set (w1 := tick env (log_request (gravatar_json key) w)).
    pose proof (requests_grow env
                  (scan_email_loop ps (Seconds d)
                     (if also_derive then derive_candidates email else []) []) w1) as Hg.
    destruct (scan_email_loop_total env ps d
                (if also_derive then derive_candidates email else []) [] w1)
      as (hits & w' & E).
    rewrite E in *. cbn [snd] in Hg.
    eexists _, _. split; [reflexivity |]. cbn [gravatar gravatar_json_url gravatar_img_url].
    split; [reflexivity |]. split; [reflexivity |].
    destruct Hg as [tl ->]. subst w1. cbn [requests tick log_request].
    rewrite <- app_assoc, lookup_app_r, Nat.sub_diag by lia. reflexivity.
  - assert (Hs : strip " Test@Example.com " = "Test@Example.com") by (vm_compute; reflexivity).
    assert (Ht : strip "test@example.com" = "test@example.com") by (vm_compute; reflexivity).
    unfold gravatar_hash. rewrite Hs, Ht.
    rewrite !Hascii by (vm_compute; repeat constructor).
    vm_compute. repeat split.
Qed.

(** ** What a checker may do *)

Lemma fetches_weaken {A : Type} (n n' : nat) (m : Py A) :
  (n <= n')%nat -> fetches n m -> fetches n' m.
Proof.
  intros Hle H. revert n' Hle.
  induction H as [n a | n e | n url k _ IH]; intros n' Hle; try constructor.
  destruct n' as [| n']; [lia |]. constructor. intros r. apply IH. lia.
Qed.

(** The trace a code that only fetches leaves in the world. *)
Lemma fetches_run {A : Type} (env : Env) (n : nat) (m : Py A) (w : World) :
  fetches n m ->
  naps (run env m w).2 = naps w /\
  exists urls, requests (run env m w).2 = requests w ++ urls /\
    (length urls <= n)%nat /\
    clock (run env m w).2 = (clock w + length urls)%nat.
Proof.
  intros H. revert w.
  induction H as [n a | n e | n url k _ IH]; intros w; cbn [run snd].
  - split; [reflexivity |]. exists []. rewrite app_nil_r. cbn. repeat split; lia.
  - split; [reflexivity |]. exists []. rewrite app_nil_r. cbn. repeat split; lia.
  - destruct (IH (network env (length (requests w)) url)
                 (tick env (log_request url w))) as (Hn & urls & Hr & Hl & Hc).
    split; [exact Hn |]. exists (url :: urls). rewrite Hr, Hc. cbn.
    rewrite <- app_assoc. repeat split; cbn; lia.
Qed.

Lemma always_run {A : Type} (env : Env) (R : reply -> Prop)
    (Q : A + exn -> Prop) (m : Py A) (w : World) :
  (forall n url, R (network env n url)) -> always R Q m -> Q (run env m w).1.
Proof.
  intros Henv H. revert w.
  induction H as [a Ha | e He | url k _ IH | d k _ IH | k _ IH]; intros w;
    cbn [run fst]; auto.
Qed.

(** One step in the analysis of a checker: reduce the monadic code, go under
    a request, or split on the test that blocks the reduction. *)
Ltac checker_step :=
  cbn [mbind mret Py_bind Py_ret bind try_except session_get];
  repeat match goal with
         | H : is_request_exception ?e = _ |- context [is_request_exception ?e] =>
             rewrite H
         | H : status_code ?r = _ |- context [status_code ?r] => rewrite H
         end;
  cbn [mbind mret Py_bind Py_ret bind try_except Z.eqb Pos.eqb andb orb];
  match goal with
  | |- fetches _ (Ret _) => apply fetches_ret
  | |- fetches _ (Raise _) => apply fetches_raise
  | |- fetches _ (Get _ _) => apply fetches_get; intros [? | ?]
  | |- always _ _ (Ret _) => apply always_ret
  | |- always _ _ (Raise _) => apply always_raise
  | |- always _ _ (Get _ _) =>
      let H := fresh "Hanswer" in
      apply always_get; intros [? | ?] H; cbn in H; try contradiction
  | |- _ => case_match
  end.

Lemma check_generic_fetches (tpl u : string) : fetches 1 (check_generic tpl u).
Proof. unfold check_generic. repeat checker_step. Qed.

Lemma check_gitlab_fetches (u : string) : fetches 1 (check_gitlab u).
Proof. unfold check_gitlab. repeat checker_step. Qed.

Lemma assoc_elem_of {V : Type} (k : string) (d : list (string * V)) (v : V) :
  assoc k d = Some v -> (k, v) ∈ d.
Proof.
  induction d as [| [k' v'] d IH]; cbn; [discriminate |].
  destruct (String.eqb_spec k k') as [-> | _].
  - intros [= ->]. left.
  - intros H. right. apply IH, H.
Qed.

(** Proving a property of every entry of the registry, entry by entry. *)
Ltac each_checker tac :=
  unfold PLATFORM_CHECKERS;
  repeat (apply Forall_cons_2; [intros ?u; cbn [fst snd]; tac |]);
  apply Forall_nil_2.

Ltac unfold_checkers :=
  unfold check_github, check_gitlab, check_reddit, check_stackoverflow,
    check_tiktok, check_youtube, check_steam, check_instagram, check_x,
    check_hackernews, check_linkedin, check_generic, r_json, py_get,
    Exception, RequestException.

Lemma registry_fetches :
  Forall (fun pc => forall u, fetches 2 (pc.2 u)) PLATFORM_CHECKERS.
Proof.
  each_checker ltac:(unfold_checkers; repeat checker_step).
Qed.

Lemma call_checker_fetches (p u : string) : fetches 2 (call_checker p u).
Proof.
  unfold call_checker. destruct (assoc p PLATFORM_CHECKERS) as [c |] eqn:E.
  - apply assoc_elem_of in E.
    exact (proj1 (Forall_forall _ _) registry_fetches _ E u).
  - apply (fetches_weaken 1); [lia | apply check_generic_fetches].
Qed.

Ltac not_fail_closed :=
  apply (bool_decide_unpack _); vm_compute; exact I.

Lemma registry_escapes :
  Forall (fun pc => forall u, always any_reply (escapes_only pc.1) (pc.2 u))
         PLATFORM_CHECKERS.
Proof.
  each_checker ltac:(unfold_checkers; repeat checker_step;
                     unfold escapes_only; try exact I;
                     (split; [assumption | not_fail_closed])).
Qed.

Lemma registry_unreachable :
  Forall (fun pc => forall u, always unreachable ends_absent (pc.2 u))
         PLATFORM_CHECKERS.
Proof.
  each_checker ltac:(unfold_checkers; repeat checker_step; reflexivity).
Qed.

Lemma registry_404 :
  Forall (fun pc => forall u, always answers_404 ends_absent (pc.2 u))
         PLATFORM_CHECKERS.
Proof.
  each_checker ltac:(unfold_checkers; repeat checker_step; reflexivity).
Qed.

Lemma registry_evidence :
  Forall (fun pc => forall u, always any_reply (evidence_shape pc.1) (pc.2 u))
         PLATFORM_CHECKERS.
Proof.
  each_checker ltac:(unfold_checkers; repeat checker_step;
                     unfold evidence_shape, Absent; cbn [is_mapping];
                     first [exact I | left; exact I | right; split; reflexivity]).
Qed.

Lemma assoc_None_keys {V : Type} (k : string) (d : list (string * V)) :
  assoc k d = None -> k ∉ d.*1.
Proof.
  induction d as [| [k' v'] d IH]; cbn; [intros _ H; inversion H |].
  destruct (String.eqb_spec k k') as [-> | Hne]; [discriminate |].
  intros H Hin. apply elem_of_cons in Hin as [-> | Hin]; [congruence |].
  exact (IH H Hin).
Qed.

Lemma assoc_Some_keys {V : Type} (k : string) (d : list (string * V)) :
  k ∈ d.*1 -> is_Some (assoc k d).
Proof.
  induction d as [| [k' v'] d IH]; cbn; [intros H; inversion H |].
  destruct (String.eqb_spec k k') as [-> | Hne]; [eauto |].
  intros Hin. apply elem_of_cons in Hin as [-> | Hin]; [congruence | auto].
Qed.

(** The two tables of the platform map have the same keys, in the same
    order. *)
Lemma registry_keys : PLATFORM_CHECKERS.*1 = GENERIC_TEMPLATES.*1.
Proof. reflexivity. Qed.

Lemma unknown_not_fail_closed (p : string) :
  assoc p PLATFORM_CHECKERS = None -> p ∉ fail_closed_platforms.
Proof.
  intros E Hin. apply assoc_None_keys in E. apply E. clear E.
  rewrite registry_keys. unfold fail_closed_platforms in Hin.
  cbn [GENERIC_TEMPLATES fmap list_fmap fst].
  rewrite !elem_of_cons, elem_of_nil in *. intuition auto.
Qed.

Lemma unknown_not_stack_overflow (p : string) :
  assoc p PLATFORM_CHECKERS = None -> p <> "stack_overflow".
Proof.
  intros E ->. apply assoc_None_keys in E. apply E.
  rewrite registry_keys. cbn [GENERIC_TEMPLATES fmap list_fmap fst].
  rewrite !elem_of_cons. auto 10.
Qed.

Lemma check_generic_escapes (p tpl u : string) :
  p ∉ fail_closed_platforms ->
  always any_reply (escapes_only p) (check_generic tpl u).
Proof.
  intros Hp. unfold_checkers. repeat checker_step; unfold escapes_only; auto.
Qed.

Lemma check_generic_unreachable (tpl u : string) :
  always unreachable ends_absent (check_generic tpl u).
Proof. unfold_checkers. repeat checker_step; reflexivity. Qed.

Lemma check_generic_404 (tpl u : string) :
  always answers_404 ends_absent (check_generic tpl u).
Proof. unfold_checkers. repeat checker_step; reflexivity. Qed.

Lemma check_generic_evidence (p tpl u : string) :
  always any_reply (evidence_shape p) (check_generic tpl u).
Proof.
  unfold_checkers. repeat checker_step; unfold evidence_shape, Absent;
    cbn [is_mapping]; first [exact I | left; exact I].
Qed.

(** From the entries of the registry to [call_checker]. *)
Lemma call_checker_always (R : reply -> Prop)
    (Q : string -> bool * pyval + exn -> Prop) (p u : string) :
  Forall (fun pc => forall u, always R (Q pc.1) (pc.2 u)) PLATFORM_CHECKERS ->
  (assoc p PLATFORM_CHECKERS = None ->
   always R (Q p) (check_generic (template_of p) u)) ->
  always R (Q p) (call_checker p u).
Proof.
  intros Hreg Hgen. unfold call_checker.
  destruct (assoc p PLATFORM_CHECKERS) as [c |] eqn:E; [| apply Hgen; reflexivity].
  apply assoc_elem_of in E.
  exact (proj1 (Forall_forall _ _) Hreg _ E u).
Qed.

Lemma call_checker_escapes_only (p u : string) :
  always any_reply (escapes_only p) (call_checker p u).
Proof.
  apply call_checker_always; [exact registry_escapes |].
  intros E. apply check_generic_escapes, unknown_not_fail_closed, E.
Qed.

Lemma call_checker_unreachable (p u : string) :
  always unreachable ends_absent (call_checker p u).
Proof.
  apply (call_checker_always unreachable (fun _ => ends_absent));
    [exact registry_unreachable | intros _; apply check_generic_unreachable].
Qed.

Lemma call_checker_404 (p u : string) :
  always answers_404 ends_absent (call_checker p u).
Proof.
  apply (call_checker_always answers_404 (fun _ => ends_absent));
    [exact registry_404 | intros _; apply check_generic_404].
Qed.

Lemma call_checker_evidence (p u : string) :
  always any_reply (evidence_shape p) (call_checker p u).
Proof.
  apply call_checker_always; [exact registry_evidence |].
  intros _. apply check_generic_evidence.
Qed.

(** X1.  An exception that comes out of the checker of a platform is never
    a [RequestException], and the platform is then not one of the ten whose
    checker catches everything: a failure of the transport never escapes a
    checker. *)
Theorem call_checker_exception (env : Env) (p u : string) (w : World)
    (e : exn) (w' : World) :
  run env (call_checker p u) w = (inr e, w') ->
  is_request_exception e = false /\ p ∉ fail_closed_platforms.
Proof.
  intros E.
  pose proof (always_run env any_reply (escapes_only p) (call_checker p u) w
                (fun _ _ => I) (call_checker_escapes_only p u)) as H.
  rewrite E in H. exact H.
Qed.

(** What a check leaves behind, for the lemmas on the scans. *)
Lemma worker_check_shape (env : Env) (p u : string) (d : N) (w : World) :
  exists h w', run env (worker_check p u (Seconds d)) w = (inl h, w') /\
    platform h = p /\
    url h = format_u (template_of p) u /\
    evidence_shape p (inl (true, meta h)) /\
    (STOP w = true -> h = skipped_hit p u /\ w' = tick env w) /\
    (STOP w = false ->
       completed h /\ skipped h = false /\ naps w' = naps w ++ [d] /\
       exists urls, requests w' = requests w ++ urls /\ (length urls <= 2)%nat).
Proof.
  rewrite run_worker_check. cbn zeta. destruct (STOP w) eqn:Ew.
  - eexists _, _. split; [reflexivity |]. cbn.
    repeat split; try discriminate. left. exact I.
  - pose proof (fetches_run env 2 (call_checker p u) (tick env w)
                  (call_checker_fetches p u)) as (Hn & urls & Hr & Hl & _).
    pose proof (always_run env any_reply (evidence_shape p) (call_checker p u)
                  (tick env w) (fun _ _ => I) (call_checker_evidence p u)) as Hm.
    case_checker env p u w; cbn [fst snd] in *;
      eexists _, _; (split; [reflexivity |]); cbn;
      (split; [reflexivity |]); (split; [reflexivity |]);
      (split; [try exact Hm; left; exact I |]); (split; [discriminate |]);
      intros _; unfold completed; cbn; rewrite Hn;
      (split; [eauto |]); (split; [reflexivity |]); (split; [reflexivity |]);
      exists urls; rewrite Hr; auto.
Qed.

(** ** The shape of a scan *)

Lemma scan_loop_shape (env : Env) (u : string) (d : N) (ps : list string)
    (acc : list Hit) (w : World) :
  exists rs w', run env (scan_username_loop u (Seconds d) ps acc) w = (inl (acc ++ rs), w') /\
    platform <$> rs `prefix_of` ps /\
    Forall (well_formed_hit u) rs /\
    (forall i h, rs !! i = Some h -> (S i < length rs)%nat -> completed h) /\
    naps w' = naps w ++ replicate (length (filter completed rs)) d /\
    (length (requests w') <= length (requests w) + 2 * length (filter completed rs))%nat /\
    requests w `prefix_of` requests w' /\
    (length rs < length ps -> STOP w' = true)%nat /\
    (STOP w = true ->
     rs = match ps with [] => [] | p :: _ => [skipped_hit p u] end /\
     requests w' = requests w).
Proof.
  revert acc w. induction ps as [| p rest IH]; intros acc w.
  - exists [], w. rewrite !app_nil_r. cbn.
    repeat split; auto; try lia; try reflexivity.
  - rewrite run_scan_loop_cons.
    destruct (worker_check_shape env p u d w)
      as (h & w1 & E & Hp & Hu & Hm & Hset & Hclear).
    rewrite E.
    assert (Hwf : well_formed_hit u h).
    { unfold well_formed_hit. rewrite Hp. repeat split; auto.
      destruct (STOP w) eqn:Ew.
      - right. apply Hset. reflexivity.
      - left. destruct (Hclear eq_refl) as (? & ? & _). auto. }
    assert (Hfoot : naps w1 = naps w ++ replicate (length (filter completed [h])) d /\
                    (length (requests w1)
                     <= length (requests w) + 2 * length (filter completed [h]))%nat /\
                    requests w `prefix_of` requests w1 /\
                    (STOP w = true -> h = skipped_hit p u /\ requests w1 = requests w)).
    { destruct (STOP w) eqn:Ew.
      - destruct (Hset eq_refl) as [-> ->]. cbn.
        rewrite app_nil_r. repeat split; auto; lia.
      - destruct (Hclear eq_refl) as (Hc & _ & Hn & urls & Hr & Hl).
        rewrite filter_cons_True, filter_nil by exact Hc. cbn.
        rewrite Hn, Hr, length_app. repeat split; try lia; try discriminate.
        apply prefix_app_r. reflexivity. }
    destruct Hfoot as (Hn1 & Hr1 & Hpre1 & Hset1).
    destruct (STOP w1) eqn:E1.
    + exists [h], (tick env w1). split; [reflexivity |].
      change (platform <$> [h]) with [platform h].
      rewrite Hp.
      split; [apply (prefix_app_r [p] [p] rest); reflexivity |].
      split; [constructor; [exact Hwf | constructor] |].
      split; [intros i h' Hi Hlt; cbn in Hlt; lia |].
      split; [exact Hn1 |].
      split; [exact Hr1 |].
      split; [exact Hpre1 |].
      split; [intros _; apply STOP_tick, E1 |].
      intros Ew. destruct (Hset1 Ew) as [-> Hreq].
      split; [reflexivity | exact Hreq].
    + assert (Ew : STOP w = false).
      { destruct (STOP w) eqn:Ew; [| reflexivity].
        destruct (Hset eq_refl) as [_ ->].
        rewrite (STOP_tick env w Ew) in E1. discriminate. }
      destruct (Hclear Ew) as (Hc & _).
      destruct (IH (acc ++ [h]) (tick env w1))
        as (rs & w' & E' & Hps & Hall & Hlast & Hn & Hr & Hpre & Hshort & _).
      exists (h :: rs), w'. rewrite E', <- app_assoc.
      split; [reflexivity |]. rewrite fmap_cons, Hp.
      rewrite filter_cons_True by exact Hc.
      rewrite filter_cons_True, filter_nil in Hn1, Hr1 by exact Hc.
      cbn [length replicate] in *.
      split; [apply prefix_cons, Hps |].
      split; [constructor; assumption |].
      split.
      { intros [| i] h' Hi Hlt; cbn in Hi.
        - inversion Hi; subst. exact Hc.
        - apply (Hlast i h' Hi). cbn in Hlt. lia. }
      split.
      { rewrite Hn. cbn [tick naps]. rewrite Hn1, <- app_assoc. reflexivity. }
      split; [cbn [tick requests] in Hr; lia |].
      split; [etransitivity; [exact Hpre1 | exact Hpre] |].
      split; [intros Hlt; apply Hshort; cbn in Hlt; lia |].
      intros Hw. congruence.
Qed.

(** ** Properties of the scan *)


(** X3.  A result that is shorter than the platform list means that the
    scan was cancelled: [STOP] is set when [scan_username] returns. *)
Theorem scan_username_short_is_cancelled (env : Env) (u : string)
    (ps : list string) (d : N) (w : World) (rs : list Hit) (w' : World) :
  run env (scan_username u ps (Seconds d)) w = (inl rs, w') ->
  (length rs < length ps)%nat ->
  STOP w' = true.
Proof.
  intros E Hlt.
  destruct (scan_loop_shape env u d ps [] w)
    as (rs0 & w0' & E0 & _ & _ & _ & _ & _ & _ & Hshort & _).
  unfold scan_username in E. rewrite E0 in E. inversion E; subst.
  apply Hshort, Hlt.
Qed.

(** X4.  Pacing.  [scan_username] sleeps once, for [delay], after each
    completed check and never otherwise, and it makes at most two requests
    for each completed check; a skip costs neither a request nor a sleep. *)
Theorem scan_username_pacing (env : Env) (u : string) (ps : list string)
    (d : N) (w : World) :
  exists rs w', run env (scan_username u ps (Seconds d)) w = (inl rs, w') /\
    naps w' = naps w ++ replicate (length (filter completed rs)) d /\
    requests w `prefix_of` requests w' /\
    (length (requests w') <= length (requests w) + 2 * length (filter completed rs))%nat.
Proof.
  destruct (scan_loop_shape env u d ps [] w)
    as (rs & w' & E & _ & _ & _ & Hn & Hr & Hpre & _).
  exists rs, w'. auto.
Qed.

(** X5.  A scan that starts when [STOP] is already set records its first
    platform as skipped and stops there, without a request or a sleep. *)
Theorem scan_username_already_cancelled (env : Env) (u p : string)
    (rest : list string) (d : N) (w : World) :
  STOP w = true ->
  exists w', run env (scan_username u (p :: rest) (Seconds d)) w = (inl [skipped_hit p u], w') /\
    requests w' = requests w /\ naps w' = naps w.
Proof.
  intros Ew.
  destruct (scan_loop_shape env u d (p :: rest) [] w)
    as (rs & w' & E & _ & _ & _ & Hn & _ & _ & _ & Hset).
  destruct (Hset Ew) as [-> Hreq]. exists w'. split; [exact E |].
  split; [exact Hreq |]. rewrite Hn. cbn. apply app_nil_r.
Qed.

(** ** Properties of a check *)



Lemma append_empty_r (s : string) : s +:+ EmptyString = s.
Proof. induction s as [| c s IH]; [reflexivity |]. rewrite append_cons, IH. reflexivity. Qed.

Lemma format_u_default_template (u : string) : format_u "{u}" u = u.
Proof. cbn. apply append_empty_r. Qed.


(** ** The GitHub checker *)

(** X9.  [check_github] asks the API first.  Status 200 with a JSON object
    is Present, with the name and the bio of the object (or [None]) as
    evidence; status 404 is Absent; in both cases the profile page is not
    requested.  In every other case (an exception, another status, a body
    that is not a JSON object) the answer is that of the generic checker on
    the profile page, asked next. *)
Theorem check_github_api_then_page (env : Env) (u : string) (w : World) :
  let api := "https://api.github.com/users/" +:+ u in
  let answer := network env (length (requests w)) api in
  let w1 := tick env (log_request api w) in
  let page := run env (check_generic "https://github.com/{u}" u) w1 in
  (forall r d, answer = Respond r -> status_code r = 200 ->
     json_loads (content r) = Some (PDict d) ->
     run env (check_github u) w =
     (inl (true, PDict [("source", PStr "api.github.com");
                        ("name", default PNone (assoc "name" d));
                        ("bio", default PNone (assoc "bio" d))]), w1)) /\
  (forall r, answer = Respond r -> status_code r = 404 ->
     run env (check_github u) w = (inl (false, PDict []), w1)) /\
  (forall e, answer = Fail e -> run env (check_github u) w = page) /\
  (forall r, answer = Respond r -> status_code r <> 200 -> status_code r <> 404 ->
     run env (check_github u) w = page) /\
  (forall r, answer = Respond r -> status_code r = 200 ->
     (forall d, json_loads (content r) <> Some (PDict d)) ->
     run env (check_github u) w = page).
Proof.
  intros api answer w1 page. subst answer page w1.
  unfold check_github. fold api.
  rewrite run_bind, run_try_except, run_bind, run_session_get.
  destruct (network env (length (requests w)) api) as [r | e].
  - repeat split.
    + intros r' d [= <-] Hs Hj. rewrite Hs. cbn [Z.eqb Pos.eqb].
      unfold r_json. rewrite Hj. reflexivity.
    + intros r' [= <-] Hs. rewrite Hs. reflexivity.
    + discriminate.
    + intros r' [= <-] H200 H404.
      apply Z.eqb_neq in H200, H404. rewrite H200, H404. reflexivity.
    + intros r' [= <-] Hs Hj. rewrite Hs. cbn [Z.eqb Pos.eqb].
      unfold r_json. destruct (json_loads (content r)) as [j |]; [| reflexivity].
      destruct j; try reflexivity. exfalso. eapply Hj. reflexivity.
  - repeat split; discriminate.
Qed.

(** ** The rows of the CSV file *)

Lemma run_meta_get (env : Env) (m : pyval) (key : string) (w : World) :
  run env (meta_get m key) w =
  (if truthy m
   then match m with
        | PDict d => inl (default (PStr EmptyString) (assoc key d))
        | _ => inr AttributeError
        end
   else inl (PStr EmptyString), w).
Proof. unfold meta_get. destruct (truthy m); [destruct m |]; reflexivity. Qed.

Lemma run_meta_get_readable (env : Env) (m : pyval) (key : string) (w : World) :
  (truthy m = true -> is_mapping m) ->
  run env (meta_get m key) w = (inl (evidence_field m key), w).
Proof.
  intros Hr. rewrite run_meta_get.
  destruct (truthy m) eqn:Et.
  - specialize (Hr eq_refl). destruct m; try contradiction. reflexivity.
  - destruct m; try reflexivity.
    cbn [truthy] in Et. destruct d; [reflexivity | discriminate].
Qed.

Lemma run_hit_row_readable (env : Env) (ts : Z) (mode : string)
    (subject : option string) (h : Hit) (w : World) :
  readable h ->
  exists r, run env (hit_row ts mode subject h) w = (inl r, w) /\
            renders ts mode subject h r.
Proof.
  unfold readable, hit_row, renders. intros Hr.
  rewrite run_bind, (run_meta_get_readable env _ _ _ Hr).
  rewrite run_bind, (run_meta_get_readable env _ _ _ Hr).
  eexists. split; reflexivity.
Qed.

Lemma run_hit_row_unreadable (env : Env) (ts : Z) (mode : string)
    (subject : option string) (h : Hit) (w : World) :
  ~ readable h ->
  run env (hit_row ts mode subject h) w = (inr AttributeError, w).
Proof.
  unfold readable, hit_row. intros Hr. rewrite run_bind, run_meta_get.
  destruct (truthy (meta h)) eqn:Et; [| exfalso; apply Hr; discriminate].
  destruct (meta h); try reflexivity. exfalso. apply Hr. intros _. exact I.
Qed.

Lemma run_hit_rows (env : Env) (ts : Z) (mode : string)
    (subject : option string) (hits : list Hit) (rows : list Row) (w : World) :
  (Forall readable hits ->
   exists rows', run env (hit_rows ts mode subject hits rows) w = (inl (rows ++ rows'), w) /\
                 Forall2 (renders ts mode subject) hits rows') /\
  (Exists (fun h => ~ readable h) hits ->
   run env (hit_rows ts mode subject hits rows) w = (inr AttributeError, w)).
Proof.
  revert rows. induction hits as [| h rest IH]; intros rows.
  - split.
    + intros _. exists []. rewrite app_nil_r. split; [reflexivity | constructor].
    + intros H. inversion H.
  - cbn [hit_rows]. rewrite run_bind. split.
    + intros Hall. inversion Hall as [| ? ? Hh Hrest]; subst.
      destruct (run_hit_row_readable env ts mode subject h w Hh) as (r & E & Hr).
      rewrite E. destruct (proj1 (IH (rows ++ [r])) Hrest) as (rows' & E' & HF).
      exists (r :: rows'). rewrite E', <- app_assoc. split; [reflexivity |].
      constructor; assumption.
    + intros Hex. destruct (decide (readable h)) as [Hh | Hh].
      * destruct (run_hit_row_readable env ts mode subject h w Hh) as (r & E & _).
        rewrite E. apply IH. inversion Hex; subst; [contradiction | assumption].
      * rewrite (run_hit_row_unreadable env ts mode subject h w Hh). reflexivity.
Qed.

(** X10.  In username mode [flatten_csv] gives one row per hit, in order,
    each with the platform, the URL and the outcome of its hit and with the
    title and the source of its evidence (empty when missing), provided the
    evidence of every hit is falsy or a mapping.  If the evidence of some hit
    is neither, it raises [AttributeError] and gives no row at all. *)
Theorem flatten_csv_username (env : Env) (results : Results) (hits : list Hit)
    (w : World) :
  res_hits results = Some hits ->
  let uname := default EmptyString (res_username results) in
  (Forall readable hits ->
   exists rows, run env (flatten_csv results) w = (inl rows, w) /\
     Forall2 (renders (res_timestamp results) "username" (Some uname)) hits rows) /\
  (Exists (fun h => ~ readable h) hits ->
   run env (flatten_csv results) w = (inr AttributeError, w)).
Proof.
  intros E uname. unfold flatten_csv. rewrite E. fold uname.
  exact (run_hit_rows env (res_timestamp results) "username" (Some uname) hits [] w).
Qed.

(** ** The evidence of Stack Overflow *)

(** X11.  For an identifier made of digits, a page of Stack Overflow that is
    not a 404, has none of the negative phrases and has no title makes the
    check report Present with the pair [(True, {})] as evidence, not a
    mapping; [hit_row], and with it [flatten_csv], raises [AttributeError] on
    that record. *)
Theorem stackoverflow_untitled_breaks_rows (env : Env) (u : string) (d : N)
    (w : World) (r : Response) :
  isdigit u = true ->
  STOP w = false ->
  network env (length (requests w)) ("https://stackoverflow.com/users/" +:+ u)
  = Respond r ->
  status_code r <> 404 ->
  any_phrase_in ["user deleted"; "page not found"; "profile not found"]
                (lower (text r)) = false ->
  _title_from_html (content r) = EmptyString ->
  exists h w', run env (worker_check "stack_overflow" u (Seconds d)) w = (inl h, w') /\
    exists_ h = Some true /\
    meta h = PTuple [PBool true; PDict []] /\
    forall env' ts mode subject w2,
      run env' (hit_row ts mode subject h) w2 = (inr AttributeError, w2).
Proof.
  intros Hd Ew Hnet H404 Hneg Ht.
  rewrite run_worker_check. cbn zeta. rewrite Ew.
  change (call_checker "stack_overflow" u) with (check_stackoverflow u).
  unfold check_stackoverflow. rewrite Hd. cbn [negb].
  rewrite run_try_except, run_bind, run_session_get.
  change (requests (tick env w)) with (requests w). rewrite Hnet.
  apply Z.eqb_neq in H404. rewrite H404, Hneg, Ht. cbn [nonempty].
  eexists _, _. split; [reflexivity |]. split; [reflexivity |].
  split; [reflexivity |].
  intros env' ts mode subject w2. apply run_hit_row_unreadable.
  unfold readable. cbn. intros H. exact (H eq_refl).
Qed.

(** ** The shape of an e-mail scan *)

Lemma scan_email_loop_shape (env : Env) (ps : list string) (d : N)
    (cands : list string) (hits : list (string * list Hit)) (w : World) :
  exists out w', run env (scan_email_loop ps (Seconds d) cands hits) w = (inl (hits ++ out), w') /\
    out.*1 `prefix_of` cands /\
    Forall (fun cr => platform <$> cr.2 `prefix_of` ps /\
                      Forall (well_formed_hit cr.1) cr.2) out /\
    (length out < length cands -> STOP w' = true)%nat /\
    (never_signalled env w ->
     out.*1 = cands /\ Forall (fun cr => platform <$> cr.2 = ps) out).
Proof.
  revert hits w. induction cands as [| c rest IH]; intros hits w.
  - exists [], w. rewrite app_nil_r. cbn.
    repeat split; auto; try lia; try reflexivity.
  - cbn [scan_email_loop]. rewrite run_bind. unfold scan_username at 1.
    destruct (scan_loop_shape env c d ps [] w)
      as (rs & w1 & E & Hps & Hall & _).
    rewrite E. cbn [app]. rewrite run_bind, run_read_STOP.
    assert (Hq : never_signalled env w ->
                 platform <$> rs = ps /\ never_signalled env w1).
    { intros Hn.
      destruct (scan_loop_never_signalled env c d ps [] w Hn) as (rs' & w1' & E' & Hps' & _).
      pose proof (never_signalled_run env (scan_username_loop c (Seconds d) ps []) w Hn) as Hn1.
      rewrite E in E', Hn1. inversion E'; subst. auto. }
    destruct (STOP w1) eqn:E1.
    + exists [(c, rs)], (tick env w1). split; [reflexivity |]. cbn.
      split; [apply (prefix_app_r [c] [c] rest); reflexivity |].
      split; [repeat constructor; assumption |].
      split; [intros _; rewrite E1; reflexivity |].
      intros Hn. destruct (Hq Hn) as (_ & Hn1 & _). congruence.
    + destruct (IH (hits ++ [(c, rs)]) (tick env w1))
        as (out & w' & E' & Hpre & Hout & Hshort & Hfull).
      exists ((c, rs) :: out), w'. rewrite E', <- app_assoc.
      split; [reflexivity |]. rewrite fmap_cons. cbn [fst].
      split; [apply prefix_cons, Hpre |].
      split; [constructor; [split; assumption | exact Hout] |].
      split; [intros Hlt; apply Hshort; cbn in Hlt; lia |].
      intros Hn. destruct (Hq Hn) as (Hps' & Hn1).
      destruct (Hfull (never_signalled_tick env w1 Hn1)) as (Hk & Hf).
      split; [congruence | constructor; [exact Hps' | exact Hf]].
Qed.

(** ** Properties of the e-mail scan *)

(** X12.  Without [--also-derive], [scan_email] looks the address up at
    Gravatar and does nothing else, whatever the platform list and the delay:
    it returns, with no candidate and no platform hit, it does not sleep, and
    it makes one request, for the JSON URL of the digest, or none when the
    digest cannot be computed. *)
Theorem scan_email_without_derivation (env : Env) (email : string)
    (ps : list string) (delay : Delay) (w : World) :
  exists res w', run env (scan_email email ps delay false) w = (inl res, w') /\
    username_candidates res = [] /\
    platform_hits res = [] /\
    requests w' =
      requests w ++ match gravatar_hash email with
                    | Some h => ["https://www.gravatar.com/" +:+ h +:+ ".json"]
                    | None => []
                    end /\
    naps w' = naps w.
Proof.
  rewrite run_scan_email, run_gravatar_lookup. cbn [scan_email_loop run].
  destruct (gravatar_hash email) as [h |];
    eexists _, _; (split; [reflexivity |]); cbn; rewrite ?app_nil_r; repeat split.
Qed.



(** ** Properties of the report *)

Lemma run_derived_rows (env : Env) (ts : Z) (ph : list (string * list Hit))
    (rows : list Row) (w : World) :
  Forall (fun cr => Forall readable cr.2) ph ->
  exists rows', run env (derived_rows ts ph rows) w = (inl (rows ++ rows'), w) /\
    Forall2 (fun uh r => renders ts "email-derived" (Some uh.1) uh.2 r)
            (hits_by_candidate ph) rows'.
Proof.
  revert rows. induction ph as [| [u hits] rest IH]; intros rows Hall.
  - exists []. rewrite app_nil_r. split; [reflexivity | constructor].
  - inversion Hall as [| ? ? Hh Hrest]; subst. cbn [derived_rows]. rewrite run_bind.
    destruct (proj1 (run_hit_rows env ts "email-derived" (Some u) hits rows w) Hh)
      as (rows1 & E & HF).
    rewrite E. destruct (IH (rows ++ rows1) Hrest) as (rows2 & E2 & HF2).
    exists (rows1 ++ rows2). rewrite E2, <- app_assoc. split; [reflexivity |].
    unfold hits_by_candidate. rewrite bind_cons. cbn [fst snd].
    apply Forall2_app; [| exact HF2].
    apply Forall2_fmap_l. eapply Forall2_impl; [exact HF |]. auto.
Qed.

(** X15.  In e-mail mode [flatten_csv] gives the row of the Gravatar lookup
    first, whose [exists] tells whether a profile was fetched and is not
    empty, and then one row per record of each candidate, in order, with the
    candidate as subject (provided the evidence of every record is falsy or a
    mapping). *)
Theorem flatten_csv_email (env : Env) (results : Results) (es : EmailScanDict)
    (w : World) :
  res_hits results = None ->
  res_email_scan results = Some es ->
  Forall (fun cr => Forall readable cr.2) (es_platform_hits es) ->
  exists rows, run env (flatten_csv results) w
               = (inl (gravatar_row results es :: rows), w) /\
    Forall2 (fun uh r => renders (res_timestamp results) "email-derived"
                                 (Some uh.1) uh.2 r)
            (hits_by_candidate (es_platform_hits es)) rows.
Proof.
  intros E1 E2 Hall. unfold flatten_csv. rewrite E1, E2.
  destruct (run_derived_rows env (res_timestamp results) (es_platform_hits es)
              [gravatar_row results es] w Hall) as (rows & E & HF).
  exists rows. split; [exact E | exact HF].
Qed.

(** X16.  The reduction of an e-mail scan to its positive hits: the
    candidates that are kept are among those scanned, in order; each is kept
    with exactly its records whose [exists] is [True], and it is kept only if
    there is one. *)
Theorem positive_hits_spec (ph : list (string * list Hit)) :
  (positive_hits ph).*1 `sublist_of` ph.*1 /\
  Forall (fun cr => cr.2 <> [] /\ Forall is_found cr.2) (positive_hits ph) /\
  (forall u pos, (u, pos) ∈ positive_hits ph ->
     exists hits, (u, hits) ∈ ph /\ pos = filter is_found hits) /\
  (forall u hits, (u, hits) ∈ ph -> filter is_found hits <> [] ->
     (u, filter is_found hits) ∈ positive_hits ph).
Proof.
  induction ph as [| [u hits] rest (IH1 & IH2 & IH3 & IH4)].
  - cbn. repeat split; try constructor.
    + intros u pos H. inversion H.
    + intros u hits H. inversion H.
  - cbn [positive_hits].
    assert (Hf : Forall is_found (filter is_found hits)).
    { apply Forall_forall. intros h Hh. apply list_elem_of_filter in Hh. tauto. }
    destruct (filter is_found hits) as [| h pos] eqn:E.
    + split; [rewrite fmap_cons; apply sublist_cons, IH1 |].
      split; [exact IH2 |]. split.
      * intros u' pos' H. destruct (IH3 u' pos' H) as (hits' & Hin & ->).
        exists hits'. split; [right; exact Hin | reflexivity].
      * intros u' hits' Hin Hne. apply elem_of_cons in Hin as [[= -> ->] | Hin].
        -- congruence.
        -- apply IH4; assumption.
    + split; [rewrite !fmap_cons; apply sublist_skip, IH1 |].
      split; [constructor; [split; [discriminate | exact Hf] | exact IH2] |].
      split.
      * intros u' pos' H. apply elem_of_cons in H as [[= -> ->] | H].
        -- exists hits. split; [left | symmetry; exact E].
        -- destruct (IH3 u' pos' H) as (hits' & Hin & ->).
           exists hits'. split; [right; exact Hin | reflexivity].
      * intros u' hits' Hin Hne. apply elem_of_cons in Hin as [[= -> ->] | Hin].
        -- rewrite E. left.
        -- right. apply IH4; assumption.
Qed.

Lemma positive_hits_Forall (P : Hit -> Prop) (ph : list (string * list Hit)) :
  Forall (fun cr => Forall P cr.2) ph ->
  Forall (fun cr => Forall P cr.2) (positive_hits ph).
Proof.
  induction 1 as [| [u hits] rest Hh _ IH]; [constructor |].
  cbn [positive_hits].
  assert (Hf : Forall P (filter is_found hits)).
  { apply Forall_forall. intros h Hin. apply list_elem_of_filter in Hin as [_ Hin].
    exact (proj1 (Forall_forall _ _) Hh h Hin). }
  destruct (filter is_found hits); [exact IH | constructor; assumption].
Qed.

Lemma scanned_platforms_spec (args : Args) (p : string) :
  p ∈ scanned_platforms args <-> p ∈ arg_platforms args /\ p <> "twitch".
Proof.
  unfold scanned_platforms. case_bool_decide as Ht.
  - rewrite list_elem_of_filter. tauto.
  - split; [| tauto]. intros Hp. split; [exact Hp |]. intros ->. contradiction.
Qed.

(** With a delay that [time.sleep] refuses a scan returns only if nothing
    was checked: the platform list is empty, or [STOP] was set from the
    start. *)
Lemma scan_username_refused (env : Env) (u : string) (refusal : exn)
    (ps : list string) (w : World) (rs : list Hit) (w' : World) :
  run env (scan_username u ps (Refused refusal)) w = (inl rs, w') ->
  rs = match ps with [] => [] | p :: _ => [skipped_hit p u] end.
Proof.
  unfold scan_username. destruct ps as [| p rest].
  - intros [= <- <-]. reflexivity.
  - rewrite run_scan_loop_cons, run_worker_check_refused.
    destruct (STOP w) eqn:Ew; [| discriminate].
    rewrite (STOP_tick env w Ew). intros [= <- <-]. reflexivity.
Qed.

(** What a scan returns, if it returns, whatever the delay. *)
Lemma scan_username_returned (env : Env) (u : string) (delay : Delay)
    (ps : list string) (w : World) (rs : list Hit) (w' : World) :
  run env (scan_username u ps delay) w = (inl rs, w') ->
  platform <$> rs `prefix_of` ps /\ Forall (well_formed_hit u) rs.
Proof.
  destruct delay as [d | refusal].
  - unfold scan_username.
    destruct (scan_loop_shape env u d ps [] w) as (rs0 & w0 & E & Hp & Hw & _).
    rewrite E. intros [= <- <-]. split; assumption.
  - intros E. apply scan_username_refused in E. subst rs.
    destruct ps as [| p rest]; [split; [reflexivity | constructor] |].
    split; [apply (prefix_app_r [p] [p] rest); reflexivity |].
    constructor; [| constructor]. unfold well_formed_hit. cbn.
    split; [reflexivity |]. split; [left; exact I | right; reflexivity].
Qed.

Lemma scan_email_loop_returned (env : Env) (ps : list string) (delay : Delay)
    (cands : list string) (hits : list (string * list Hit)) (w : World)
    (out : list (string * list Hit)) (w' : World) :
  run env (scan_email_loop ps delay cands hits) w = (inl out, w') ->
  exists new, out = hits ++ new /\
    Forall (fun cr => platform <$> cr.2 `prefix_of` ps /\
                      Forall (well_formed_hit cr.1) cr.2) new.
Proof.
  revert hits w. induction cands as [| c rest IH]; intros hits w.
  - intros [= <- <-]. exists []. rewrite app_nil_r. split; [reflexivity | constructor].
  - cbn [scan_email_loop]. rewrite run_bind.
    destruct (run env (scan_username c ps delay) w) as [[rs | e] w1] eqn:E;
      [| discriminate].
    apply scan_username_returned in E.
    rewrite run_bind, run_read_STOP. destruct (STOP w1).
    + intros [= <- <-]. exists [(c, rs)]. split; [reflexivity |].
      constructor; [exact E | constructor].
    + intros H. apply IH in H as (new & -> & Hnew).
      exists ((c, rs) :: new). rewrite <- app_assoc. split; [reflexivity |].
      constructor; [exact E | exact Hnew].
Qed.

Lemma run_main_results (env : Env) (args : Args) (now : Z) (w : World) :
  exists results w', run env (main_results args now) w = (inl results, w') /\
    par_platforms (res_params results) = scanned_platforms args /\
    Forall (fun h => platform h ∈ scanned_platforms args /\
                     evidence_shape (platform h) (inl (true, meta h)))
           (report_hits results).
Proof.
  unfold main_results. set (ps := scanned_platforms args).
  assert (Hhit : forall u rs, platform <$> rs `prefix_of` ps ->
            Forall (well_formed_hit u) rs ->
            Forall (fun h => platform h ∈ ps /\
                     evidence_shape (platform h) (inl (true, meta h))) rs).
  { intros u rs Hpre Hwf. apply Forall_forall. intros h Hh. split.
    - destruct Hpre as [tl ->]. apply elem_of_app. left.
      apply list_elem_of_fmap. eauto.
    - exact (proj1 (proj2 (proj1 (Forall_forall _ _) Hwf h Hh))). }
  assert (Hcat : forall ph : list (string * list Hit),
            Forall (fun cr => Forall (fun h => platform h ∈ ps /\
                   evidence_shape (platform h) (inl (true, meta h))) cr.2) ph ->
            Forall (fun h => platform h ∈ ps /\
                   evidence_shape (platform h) (inl (true, meta h))) (concat ph.*2)).
  { induction 1 as [| cr ph Hh _ IH]; [constructor |].
    rewrite fmap_cons. cbn [concat]. apply Forall_app. split; assumption. }
  destruct (mode_email args).
  - rewrite run_bind, run_try_except, run_bind.
    destruct (run env (scan_email (strip (arg_target args)) ps (arg_delay args)
                         (arg_also_derive args)) w) as [[scan | e] w'] eqn:E.
    2: { eexists _, _. split; [reflexivity |]. split; [reflexivity | constructor]. }
    eexists _, _. split; [reflexivity |]. split; [reflexivity |].
    rewrite run_scan_email in E.
    destruct (gravatar_lookup_total env (strip (arg_target args)) w)
      as (grav & w1 & Eg).
    rewrite Eg in E.
    destruct (run env (scan_email_loop ps (arg_delay args) _ []) w1)
      as [[hits | e] w2] eqn:El; [| discriminate].
    injection E as <- <-.
    apply scan_email_loop_returned in El as (out & -> & Hall).
    unfold report_hits. cbn [res_hits res_found res_email_scan default app].
    assert (Hout : Forall (fun cr => Forall (fun h => platform h ∈ ps /\
                     evidence_shape (platform h) (inl (true, meta h))) cr.2) out).
    { eapply Forall_impl; [exact Hall |]. intros [c rs] [Hpre Hwf].
      exact (Hhit c rs Hpre Hwf). }
    destruct (arg_only_found args); cbn [es_platform_hits platform_hits app];
      apply Hcat; [apply positive_hits_Forall |]; exact Hout.
  - rewrite run_bind, run_try_except, run_bind.
    destruct (run env (scan_username (strip (arg_target args)) ps (arg_delay args)) w)
      as [[rs | e] w'] eqn:E.
    2: { eexists _, _. split; [reflexivity |]. split; [reflexivity | constructor]. }
    eexists _, _. split; [reflexivity |]. split; [reflexivity |].
    apply scan_username_returned in E as [Hpre Hwf].
    unfold report_hits. cbn [res_hits res_found res_email_scan default].
    rewrite app_nil_r.
    pose proof (Hhit _ rs Hpre Hwf) as Hrs.
    assert (Hpos : Forall (fun h => platform h ∈ ps /\
                     evidence_shape (platform h) (inl (true, meta h)))
                          (filter is_found rs)).
    { apply Forall_forall. intros h Hh. apply list_elem_of_filter in Hh as [_ Hh].
      exact (proj1 (Forall_forall _ _) Hrs h Hh). }
    apply Forall_app. split; [destruct (arg_only_found args) |]; assumption.
Qed.

(** X17.  [main] always gets to a report, and every record in it, under
    "hits", "found" or a candidate, is for a platform that was asked for and
    that is not "twitch": Twitch is never scanned, even on request. *)
Theorem main_never_scans_twitch (env : Env) (args : Args) (now : Z) (w : World) :
  exists results w', run env (main_results args now) w = (inl results, w') /\
    ("twitch" ∉ par_platforms (res_params results)) /\
    Forall (fun h => platform h ∈ arg_platforms args /\ platform h <> "twitch")
           (report_hits results).
Proof.
  destruct (run_main_results env args now w) as (results & w' & E & Hp & Hall).
  exists results, w'. split; [exact E |]. split.
  - rewrite Hp. intros H. apply scanned_platforms_spec in H. tauto.
  - eapply Forall_impl; [exact Hall |]. intros h [H _].
    apply scanned_platforms_spec in H. exact H.
Qed.

(** X18.  When "stack_overflow" is not among the platforms asked for, the
    rows of the CSV file can always be computed from the report of [main]:
    [flatten_csv] does not raise, in either mode, with or without
    [--only-found]. *)
Theorem main_csv_rows_without_stack_overflow (env : Env) (args : Args) (now : Z)
    (w : World) :
  "stack_overflow" ∉ arg_platforms args ->
  exists results w' rows, run env (main_results args now) w = (inl results, w') /\
    run env (csv_rows args results) w' = (inl rows, w').
Proof.
  intros Hso.
  destruct (run_main_results env args now w) as (results & w' & E & _ & Hall).
  assert (Hread : Forall readable (report_hits results)).
  { eapply Forall_impl; [exact Hall |]. intros h [Hp Hm] _.
    destruct Hm as [Hm | [Hm _]]; [exact Hm |].
    apply scanned_platforms_spec in Hp. rewrite Hm in Hp. tauto. }
  unfold report_hits in Hread.
  apply Forall_app in Hread as [Hhits Hread]. apply Forall_app in Hread as [_ Hes].
  assert (Hflat : exists rows, run env (flatten_csv results) w' = (inl rows, w')).
  { unfold flatten_csv. destruct (res_hits results) as [hits |] eqn:Eh.
    - destruct (proj1 (run_hit_rows env (res_timestamp results) "username"
                         (Some (default EmptyString (res_username results)))
                         hits [] w') Hhits) as (rows & Er & _).
      eauto.
    - destruct (res_email_scan results) as [es |] eqn:Ees; [| eauto].
      assert (Hph : Forall (fun cr => Forall readable cr.2) (es_platform_hits es)).
      { clear - Hes. induction (es_platform_hits es) as [| cr ph IH]; [constructor |].
        rewrite fmap_cons in Hes. cbn [concat] in Hes.
        apply Forall_app in Hes as [H1 H2]. constructor; auto. }
      destruct (run_derived_rows env (res_timestamp results) (es_platform_hits es)
                  [mkRow (res_timestamp results) "email" (res_email results)
                     "gravatar" (default EmptyString (gravatar_img_url (es_gravatar es)))
                     (Some match profile (es_gravatar es) with
                           | Some j => truthy j
                           | None => false
                           end) (PStr EmptyString) (PStr "gravatar")] w' Hph)
        as (rows & Er & _).
      eauto. }
  destruct Hflat as (rows & Er).
  exists results, w'. eexists. split; [exact E |].
  unfold csv_rows. rewrite run_bind, Er. reflexivity.
Qed.

(** ** Markers that cannot match *)

Lemma list_ascii_append (s t : string) : chars (s +:+ t) = chars s ++ chars t.
Proof.
  unfold chars. induction s as [| c s IH]; [reflexivity |].
  rewrite append_cons. cbn. rewrite IH. reflexivity.
Qed.

(** A phrase with an ASCII capital letter does not occur in a lowercased
    text, [str.lower] leaving no such letter. *)
Lemma contains_upper_in_lower (p s : string) :
  (forall t, Forall (fun c => is_upper c = false) (chars (lower t))) ->
  Exists (fun c => is_upper c = true) (chars p) ->
  contains p (lower s) = false.
Proof.
  intros Hlow Hex. destruct (contains p (lower s)) eqn:E; [| reflexivity].
  apply contains_spec in E as (pre & post & E).
  pose proof (Hlow s) as Hl.
  rewrite E, !list_ascii_append, !Forall_app in Hl.
  destruct Hl as (_ & Hp & _).
  apply Exists_exists in Hex as (c & Hc & Hu).
  rewrite (proj1 (Forall_forall _ _) Hp c Hc) in Hu. discriminate.
Qed.

(** X23.  [check_tiktok] looks for its two JSON markers, which have
    capital letters, in the lowercased body, where they cannot occur
    ([str.lower] leaves no ASCII capital): it never answers with the source
    "tiktok-html-json", and whenever it answers Present its evidence is the
    non-empty title of the page and nothing else. *)
Theorem check_tiktok_present_by_title_only (env : Env) (u : string) (w : World)
    (m : pyval) (w' : World) :
  (forall t, Forall (fun c => is_upper c = false) (chars (lower t))) ->
  run env (check_tiktok u) w = (inl (true, m), w') ->
  exists r, network env (length (requests w)) ("https://www.tiktok.com/@" +:+ u)
            = Respond r /\
    _title_from_html (content r) <> EmptyString /\
    m = PDict [("title", PStr (_title_from_html (content r)))].
Proof.
  intros Hlow.
  unfold check_tiktok. rewrite run_try_except, run_bind, run_session_get.
  destruct (network env (length (requests w)) ("https://www.tiktok.com/@" +:+ u))
    as [r | e]; [| cbn; discriminate].
  destruct (status_code r =? 404); [cbn; discriminate |].
  destruct (_ || _ || _); [cbn; discriminate |].
  rewrite (contains_upper_in_lower "window.__INIT_PROPS"), (contains_upper_in_lower
             (dq +:+ "userInfo" +:+ dq)); try exact Hlow.
  - cbn [orb]. destruct (_title_from_html (content r)) eqn:Et; cbn; [discriminate |].
    intros [= <- <-]. exists r. rewrite Et. repeat split. discriminate.
  - apply Exists_exists. exists (chr 73). split; [| reflexivity].
    vm_compute. do 5 right. left.
  - apply Exists_exists. exists (chr 73). split; [| reflexivity].
    vm_compute. do 9 right. left.
Qed.

End Engine.

(** ** Checks of the embedding *)

(** The test suite of RFC 1321, appendix A.5. *)
Example md5_empty :
  MD5.hexdigest <$> encode EmptyString = Some "d41d8cd98f00b204e9800998ecf8427e".
Proof. vm_compute. reflexivity. Qed.

Example md5_a : MD5.hexdigest <$> encode "a" = Some "0cc175b9c0f1b6a831c399e269772661".
Proof. vm_compute. reflexivity. Qed.

Example md5_abc : MD5.hexdigest <$> encode "abc" = Some "900150983cd24fb0d6963f7d28e17f72".
Proof. vm_compute. reflexivity. Qed.

Example md5_message_digest :
  MD5.hexdigest <$> encode "message digest" = Some "f96b697d7cb7938d525a2f31aaf161d0".
Proof. vm_compute. reflexivity. Qed.

(** Two blocks. *)
Example md5_digits :
  MD5.hexdigest <$>
    encode "12345678901234567890123456789012345678901234567890123456789012345678901234567890"
  = Some "57edf4a22be3c955ac49da2e2107b67a".
Proof. vm_compute. reflexivity. Qed.

Example gravatar_hash_test :
  gravatar_hash ascii_lower " Test@Example.com " = Some "55502f40dc8b7c769880b10874abc9d0".
Proof. vm_compute. reflexivity. Qed.

(** U+00E9, U+20AC and U+1F600 in UTF-8. *)
Example utf8_char_bytes :
  code <$> chars (utf8_char 233) = [195; 169] /\
  code <$> chars (utf8_char 8364) = [226; 130; 172] /\
  code <$> chars (utf8_char 128512) = [240; 159; 152; 128].
Proof. vm_compute. repeat split. Qed.

Example characters_of_text :
  characters ("a" +:+ utf8_char 233 +:+ utf8_char 8364 +:+ "b")
  = ["a"; utf8_char 233; utf8_char 8364; "b"].
Proof. vm_compute. reflexivity. Qed.

(** NBSP and EM SPACE are stripped, as TAB and SPACE are; a blank inside
    stays. *)
Example strip_unicode_blanks :
  strip (utf8_char 160 +:+ " Bob" +:+ utf8_char 160 +:+ "Roy" +:+ utf8_char 8195
         +:+ String (chr 9) EmptyString) = "Bob" +:+ utf8_char 160 +:+ "Roy" /\
  strip (utf8_char 160) = EmptyString.
Proof. vm_compute. split; reflexivity. Qed.

(** U+200B, ZERO WIDTH SPACE, is not whitespace; neither is the letter
    U+00E0, whose second byte is the second byte of NBSP. *)
Example strip_keeps_other_characters :
  strip (utf8_char 8203 +:+ "Bob") = utf8_char 8203 +:+ "Bob" /\
  strip ("Bob" +:+ utf8_char 224) = "Bob" +:+ utf8_char 224.
Proof. vm_compute. split; reflexivity. Qed.

(** A lone surrogate has no UTF-8 bytes; U+D7FF and U+E000, next to the
    surrogates, have. *)
Example encode_surrogate :
  encode ("a" +:+ String (chr 237) (String (chr 178) (String (chr 128) EmptyString)))
  = None /\
  encode (utf8_char 55295) = Some [237; 159; 191] /\
  encode (utf8_char 57344) = Some [238; 128; 128].
Proof. vm_compute. repeat split. Qed.

(** A title made of NBSP is no title: with status 500 the generic checker
    answers Absent, and with status 200 Present without evidence. *)
Example check_generic_blank_title :
  let page := "<title>" +:+ utf8_char 160 +:+ "</title>" in
  let answer (status : Z) := mkEnv (fun _ _ => Respond (mkResponse status page page)) never in
  let check := check_generic sample_title ascii_lower "https://medium.com/@{u}" "bob" in
  (run (answer 500) check w0).1 = inl (false, PDict []) /\
  (run (answer 200) check w0).1 = inl (true, PDict []).
Proof. vm_compute. split; reflexivity. Qed.

(** "12" followed by SUPERSCRIPT TWO passes [isdigit]: the checker of
    stack_overflow asks for it. *)
Example check_stackoverflow_superscript :
  let u := "12" +:+ utf8_char 178 in
  isdigit digit_or_superscript_two u = true /\
  requests (run (sample_env never)
              (check_stackoverflow sample_title ascii_lower digit_or_superscript_two u)
              w0).2
  = ["https://stackoverflow.com/users/" +:+ u].
Proof. vm_compute. split; reflexivity. Qed.

(** [time.sleep] refuses an infinite delay while the flag is clear; a check
    that finds [STOP] set does not get to sleep. *)
Example worker_check_infinite_delay :
  let check := worker_check sample_title sample_json ascii_lower ascii_digit
                 "medium" "bob" (Refused OverflowError) in
  (run (sample_env never) check w0).1 = inr OverflowError /\
  (run (sample_env never) check (mkWorld true 0 [] [])).1
  = inl (skipped_hit "medium" "bob").
Proof. vm_compute. split; reflexivity. Qed.

(** An address with a lone surrogate has no digest: no URL is stored and
    nothing is requested. *)
Example scan_email_surrogate :
  let email := String (chr 237) (String (chr 178) (String (chr 128) "@x.com")) in
  run (sample_env never)
      (scan_email sample_title sample_json ascii_lower ascii_digit email three_platforms
         (Seconds 150) false) w0
  = (inl (mkEmailScan email (mkGravatar None None None) [] []), w0).
Proof. vm_compute. reflexivity. Qed.

Example re_split_adjacent :
  re_split is_delimiter "a..b_" = ["a"; EmptyString; "b"; EmptyString].
Proof. reflexivity. Qed.

Example format_u_template :
  format_u "https://www.reddit.com/user/{u}/" "bob" = "https://www.reddit.com/user/bob/".
Proof. reflexivity. Qed.

Example format_u_default : format_u "{u}" "bob" = "bob".
Proof. reflexivity. Qed.

Example strip_blanks : strip "  a b  " = "a b".
Proof. vm_compute. reflexivity. Qed.

Example derive_three_pieces :
  derive_candidates "a.b-c@x.com" = ["a.b-c"; "a.c"; "a_c"; "ac"].
Proof. vm_compute. reflexivity. Qed.

Example derive_no_at : derive_candidates "noat" = ["noat"].
Proof. vm_compute. reflexivity. Qed.

(** A whole scan of the sample world, nothing being signalled: three
    requests, three sleeps, three hits. *)
Example scan_sample_world :
  let r := run (sample_env never)
               (scan_username sample_title sample_json ascii_lower ascii_digit "bob" three_platforms (Seconds 150)) w0 in
  outcomes r = Some [Some true; Some true; Some true] /\
  requests r.2 = ["https://medium.com/@bob"; "https://dev.to/bob"; "https://vimeo.com/bob"] /\
  naps r.2 = [150%N; 150%N; 150%N] /\
  STOP r.2 = false.
Proof. vm_compute. repeat split; reflexivity. Qed.

(** ** Order on strings *)

Lemma ascii_compare_trans_le (a b c : Ascii.ascii) :
  Ascii.compare a b <> Gt -> Ascii.compare b c <> Gt -> Ascii.compare a c <> Gt.
Proof.
  unfold Ascii.compare. rewrite !N.compare_le_iff. lia.
Qed.

Lemma string_compare_trans (s1 s2 s3 : string) :
  String.compare s1 s2 <> Gt -> String.compare s2 s3 <> Gt ->
  String.compare s1 s3 <> Gt.
Proof.
  revert s2 s3. induction s1 as [| a s1 IH]; intros [| b s2] [| c s3]; cbn;
    try congruence.
  destruct (Ascii.compare a b) eqn:Eab; [| | congruence].
  - apply Ascii.compare_eq_iff in Eab as ->.
    destruct (Ascii.compare b c) eqn:Ebc; [apply IH | congruence | congruence].
  - intros _. destruct (Ascii.compare b c) eqn:Ebc; [| | congruence].
    + apply Ascii.compare_eq_iff in Ebc as <-. rewrite Eab. congruence.
    + intros _.
      assert (H : Ascii.compare a c = Lt).
      { unfold Ascii.compare in *. rewrite N.compare_lt_iff in *. lia. }
      rewrite H. congruence.
Qed.

Lemma str_le_compare (a b : string) : str_le a b <-> String.compare a b <> Gt.
Proof.
  unfold str_le, String.leb. destruct (String.compare a b); split; congruence.
Qed.

Lemma str_le_trans : Transitive str_le.
Proof.
  intros a b c. rewrite !str_le_compare. apply string_compare_trans.
Qed.

Lemma str_le_total : Total str_le.
Proof. intros a b. apply String.leb_total. Qed.

(** ** Splitting *)

(** The head of [s.split("@", 1)] has no [@], and the address continues with
    [@] unless it has none. *)
Lemma split1_head_spec (sep : Ascii.ascii) (s : string) :
  let h := split1_head sep s in
  Forall (fun c => c <> sep) (String.list_ascii_of_string h) /\
  (s = h \/ exists rest, s = h +:+ String sep rest).
Proof.
  induction s as [| c s [IH1 IH2]]; cbn.
  - split; [constructor | left; reflexivity].
  - destruct (Ascii.eqb_spec c sep) as [-> | Hne]; cbn.
    + split; [constructor | right; exists s; reflexivity].
    + split; [constructor; assumption |].
      destruct IH2 as [IH2 | [rest IH2]].
      * left. congruence.
      * right. exists rest. rewrite append_cons. congruence.
Qed.

(** [re.split] never returns an empty list, and no piece contains a
    delimiter. *)
Lemma re_split_pieces (cls : Ascii.ascii -> bool) (s : string) :
  re_split cls s <> [] /\
  Forall (fun p => Forall (fun c => cls c = false) (String.list_ascii_of_string p))
         (re_split cls s).
Proof.
  induction s as [| c s [IH1 IH2]]; cbn.
  - split; [discriminate | repeat constructor].
  - destruct (cls c) eqn:E.
    + split; [discriminate | constructor; [constructor | exact IH2]].
    + destruct (re_split cls s) as [| p ps]; [congruence |].
      split; [discriminate |].
      inversion IH2; subst. constructor; [constructor; assumption | assumption].
Qed.

(** ** The candidate set *)

Lemma size_union_le (X Y : gset string) : (size (X ∪ Y) <= size X + size Y)%nat.
Proof.
  rewrite size_union_alt.
  assert (Hle : (size (Y ∖ X) <= size Y)%nat).
  { apply subseteq_size. apply subseteq_difference_l. reflexivity. }
  lia.
Qed.

Lemma size_list_to_set_le (l : list string) :
  (size (list_to_set l : gset string) <= length l)%nat.
Proof.
  induction l as [| x l IH].
  - rewrite list_to_set_nil, size_empty. cbn. lia.
  - rewrite list_to_set_cons. cbn [length].
    pose proof (size_union_le {[x]} (list_to_set l)) as H.
    rewrite size_singleton in H. lia.
Qed.

Lemma candidate_set_size (email : string) : (size (candidate_set email) <= 5)%nat.
Proof.
  unfold candidate_set.
  set (local := split1_head (chr 64) email).
  assert (H1 : size ({[ local ]} : gset string) = 1%nat) by apply size_singleton.
  destruct (2 <=? length (re_split is_delimiter local))%nat; [| lia].
  destruct (re_split is_delimiter local) as [| first rest]; [lia |].
  destruct (nonempty first && nonempty (List.last rest EmptyString)); [| lia].
  pose proof (size_union_le {[local]}
                (list_to_set (variants first (List.last rest EmptyString)))) as H2.
  pose proof (size_list_to_set_le (variants first (List.last rest EmptyString))) as H3.
  cbn [variants length] in H3. lia.
Qed.

Lemma sorted_candidates_length (email : string) :
  length (merge_sort str_le (elements (candidate_set email)))
  = size (candidate_set email).
Proof.
  rewrite (Permutation_length (merge_sort_Permutation str_le _)). reflexivity.
Qed.

(** The slice [[:8]] keeps the whole sorted list. *)
Lemma derive_candidates_sorted_set (email : string) :
  derive_candidates email = merge_sort str_le (elements (candidate_set email)).
Proof.
  unfold derive_candidates. apply take_ge.
  rewrite sorted_candidates_length. pose proof (candidate_set_size email). lia.
Qed.

Lemma elem_of_derive_candidates (email c : string) :
  c ∈ derive_candidates email <-> c ∈ candidate_set email.
Proof.
  rewrite derive_candidates_sorted_set, merge_sort_Permutation.
  apply elem_of_elements.
Qed.

(** C10.  The derived list has at most 5 elements, the local part and at most
    4 variants, so that the slice [[:8]] removes nothing. *)
Theorem derive_candidates_at_most_five (email : string) :
  (length (derive_candidates email) <= 5)%nat /\
  (size (candidate_set email) <= 5)%nat /\
  derive_candidates email = merge_sort str_le (elements (candidate_set email)).
Proof.
  split; [| split].
  - rewrite derive_candidates_sorted_set, sorted_candidates_length.
    apply candidate_set_size.
  - apply candidate_set_size.
  - apply derive_candidates_sorted_set.
Qed.

(** C9.  The derived list has no duplicates, is sorted in the order of
    strings, and has at most 8 elements. *)
Theorem derive_candidates_sorted_nodup (email : string) :
  NoDup (derive_candidates email) /\
  StronglySorted str_le (derive_candidates email) /\
  (length (derive_candidates email) <= 8)%nat.
Proof.
  split; [| split].
  - unfold derive_candidates.
    apply (sublist_NoDup _ (merge_sort str_le (elements (candidate_set email)))).
    + rewrite merge_sort_Permutation. apply NoDup_elements.
    + apply sublist_take.
  - unfold derive_candidates.
    pose proof (@StronglySorted_merge_sort _ str_le _ str_le_trans str_le_total
                  (elements (candidate_set email))) as H.
    rewrite <- (take_drop 8 (merge_sort _ _)) in H.
    apply StronglySorted_app_1_l in H. exact H.
  - unfold derive_candidates. rewrite length_take. lia.
Qed.

Lemma nonempty_true (s : string) : nonempty s = true <-> s <> EmptyString.
Proof. destruct s; cbn; split; congruence. Qed.

Lemma last_cons_cons {A : Type} (a b : A) (l : list A) (d : A) :
  List.last (a :: b :: l) d = List.last (b :: l) d.
Proof. reflexivity. Qed.

(** C2, as the code has it.  The candidates are derived from the part of the
    address before [@], split at the delimiters [.], [-], [_] and [+].  That
    local part is always a candidate.  The others are the four variants
    first+last, first_last, first.last and initial+last, built from the first
    and the last piece, and they are there exactly when there are at least two
    pieces and neither the first nor the last is empty.  For "john.doe@x.com"
    the list is "jdoe", "john.doe", "john_doe", "johndoe". *)
Theorem derive_candidates_spec (email : string) :
  let local := split1_head (chr 64) email in
  let parts := re_split is_delimiter local in
  let first := hd EmptyString parts in
  let last := List.last parts EmptyString in
  local ∈ derive_candidates email /\
  (forall c, c ∈ derive_candidates email <->
     c = local \/
     ((2 <= length parts)%nat /\ first <> EmptyString /\ last <> EmptyString /\
      (c = first +:+ last \/ c = first +:+ "_" +:+ last \/
       c = first +:+ "." +:+ last \/ c = first_char first +:+ last))) /\
  derive_candidates "john.doe@x.com" = ["jdoe"; "john.doe"; "john_doe"; "johndoe"].
Proof.
  intros local parts first last.
  assert (Hmem : forall c, c ∈ candidate_set email <->
     c = local \/
     ((2 <= length parts)%nat /\ first <> EmptyString /\ last <> EmptyString /\
      (c = first +:+ last \/ c = first +:+ "_" +:+ last \/
       c = first +:+ "." +:+ last \/ c = first_char first +:+ last))).
  { intros c. unfold candidate_set. fold local. fold parts.
    destruct (Nat.leb_spec 2 (length parts)) as [Hlen | Hlen].
    - subst first last. destruct parts as [| f [| g rest]]; cbn in Hlen; try lia.
      rewrite last_cons_cons. cbn [hd].
      destruct (nonempty f) eqn:Ef; cbn [andb].
      + destruct (nonempty (List.last (g :: rest) EmptyString)) eqn:El.
        * apply nonempty_true in Ef, El. unfold variants.
          rewrite elem_of_union, elem_of_singleton, !elem_of_list_to_set,
            !elem_of_cons, elem_of_nil.
          cbn [length]. intuition lia.
        * rewrite elem_of_singleton. split; [auto |].
          intros [H | (_ & _ & H & _)]; [exact H |].
          apply nonempty_true in H. congruence.
      + rewrite elem_of_singleton. split; [auto |].
        intros [H | (_ & H & _)]; [exact H |].
        apply nonempty_true in H. congruence.
    - rewrite elem_of_singleton. split; [auto |].
      intros [H | (H & _)]; [exact H | lia]. }
  split; [| split].
  - apply elem_of_derive_candidates, Hmem. left. reflexivity.
  - intros c. rewrite elem_of_derive_candidates. apply Hmem.
  - vm_compute. reflexivity.
Qed.

(** ** Characters and stripping *)

Lemma join_characters (s : string) : join (characters s) = s.
Proof.
  induction s as [| c s IH]; [reflexivity |]. cbn [characters].
  destruct (starts_with_continuation s).
  - destruct (characters s) as [| ch rest]; cbn [join] in *.
    + rewrite <- IH. reflexivity.
    + rewrite append_cons, IH. reflexivity.
  - cbn [join]. rewrite append_cons, append_nil, IH. reflexivity.
Qed.

(** The first character of a string begins with its first byte. *)
Lemma characters_head (s ch : string) (rest : list string) :
  characters s = ch :: rest ->
  ch <> EmptyString /\ starts_with_continuation ch = starts_with_continuation s.
Proof.
  destruct s as [| c s]; [discriminate |]. cbn [characters].
  destruct (starts_with_continuation s); [destruct (characters s) |];
    intros [= <- <-]; split; first [discriminate | reflexivity].
Qed.

Lemma characters_nonempty (s : string) : s <> EmptyString -> characters s <> [].
Proof.
  destruct s as [| c s]; [congruence |]. intros _. cbn [characters].
  destruct (starts_with_continuation s); [destruct (characters s) |]; discriminate.
Qed.

(** Joining at a boundary between characters. *)
Lemma characters_append (a b : string) :
  starts_with_continuation b = false ->
  characters (a +:+ b) = characters a ++ characters b.
Proof.
  intros Hb. induction a as [| c a IH]; [reflexivity |].
  rewrite append_cons. cbn [characters].
  assert (Hs : starts_with_continuation (a +:+ b) = starts_with_continuation a).
  { destruct a as [| c' a]; [exact Hb | reflexivity]. }
  rewrite Hs, IH. destruct (starts_with_continuation a) eqn:Ea; [| reflexivity].
  destruct (characters a) as [| ch rest] eqn:Ec; [| reflexivity].
  exfalso. apply (characters_nonempty a); [| exact Ec].
  intros ->. discriminate.
Qed.

(** What [characters] returns: each element is one character, and each but
    the first begins with a lead byte. *)
Lemma characters_shape (s : string) :
  Forall (fun ch => characters ch = [ch]) (characters s) /\
  Forall (fun ch => starts_with_continuation ch = false) (tail (characters s)).
Proof.
  induction s as [| c s [IH1 IH2]]; [split; constructor |]. cbn [characters].
  destruct (starts_with_continuation s) eqn:Es.
  - destruct (characters s) as [| ch rest] eqn:Ec.
    + split; [| constructor]. constructor; [reflexivity | constructor].
    + destruct (characters_head s ch rest Ec) as [_ Hh]. rewrite Es in Hh.
      inversion IH1 as [| ? ? Hch Hrest]; subst.
      split; [| exact IH2]. constructor; [| exact Hrest].
      cbn [characters]. rewrite Hh, Hch. reflexivity.
  - split.
    + constructor; [reflexivity | exact IH1].
    + cbn [tail]. destruct (characters s) as [| ch rest] eqn:Ec; [constructor |].
      destruct (characters_head s ch rest Ec) as [_ Hh]. rewrite Es in Hh.
      constructor; [exact Hh | exact IH2].
Qed.

Lemma characters_join (l : list string) :
  Forall (fun ch => characters ch = [ch]) l ->
  Forall (fun ch => starts_with_continuation ch = false) (tail l) ->
  characters (join l) = l.
Proof.
  induction l as [| ch l IH]; [reflexivity |]. intros H1 H2.
  inversion H1 as [| ? ? Hch Hl]; subst. cbn [tail] in H2. cbn [join].
  rewrite characters_append.
  - rewrite Hch, IH; [reflexivity | exact Hl |].
    destruct l; [constructor | inversion H2; assumption].
  - destruct l as [| ch' l]; [reflexivity |].
    inversion H2 as [| ? ? Hc' _]; subst. inversion Hl as [| ? ? Hch' _]; subst.
    cbn [join]. destruct ch' as [| c' t]; [discriminate | exact Hc'].
Qed.

Lemma lstrip_spec (l : list string) :
  exists ws, l = ws ++ lstrip l /\
    Forall (fun ch => is_space ch = true) ws /\
    forall ch, head (lstrip l) = Some ch -> is_space ch = false.
Proof.
  induction l as [| ch l (ws & E & Hws & Hh)]; cbn [lstrip].
  - exists []. repeat split; [constructor | discriminate].
  - destruct (is_space ch) eqn:Ec.
    + exists (ch :: ws). cbn [app]. rewrite <- E.
      split; [reflexivity |]. split; [constructor; assumption | exact Hh].
    + exists []. split; [reflexivity |]. split; [constructor |].
      intros ch' [= <-]. exact Ec.
Qed.

Lemma rstrip_spec (l : list string) :
  exists ws, l = rstrip l ++ ws /\
    Forall (fun ch => is_space ch = true) ws /\
    (forall ch, last (rstrip l) = Some ch -> is_space ch = false) /\
    head (rstrip l) = match rstrip l with [] => None | _ => head l end.
Proof.
  induction l as [| ch l (ws & E & Hws & Hl & _)]; cbn [rstrip].
  - exists []. repeat split; [constructor | discriminate].
  - destruct (rstrip l) as [| ch' t] eqn:Er.
    + cbn [app] in E. subst ws. destruct (is_space ch) eqn:Ec.
      * exists (ch :: l). repeat split; [constructor; assumption | discriminate].
      * exists l. repeat split; [assumption |]. intros ch' [= <-]. exact Ec.
    + exists ws. split; [cbn [app] in *; f_equal; exact E |].
      split; [assumption |]. split; [| reflexivity].
      intros c Hc. apply Hl. rewrite last_cons in Hc.
      destruct (last (ch' :: t)) eqn:El; [exact Hc |].
      apply last_None in El. discriminate.
Qed.

Lemma rstrip_idempotent (l : list string) : rstrip (rstrip l) = rstrip l.
Proof.
  induction l as [| ch l IH]; cbn [rstrip]; [reflexivity |].
  destruct (rstrip l) as [| ch' t] eqn:E.
  - destruct (is_space ch) eqn:Ec; cbn [rstrip]; [reflexivity |]. rewrite Ec. reflexivity.
  - cbn [rstrip] in *. rewrite IH. reflexivity.
Qed.

(** What is left after stripping is a run of the characters, between two
    runs of whitespace, that neither begins nor ends with whitespace. *)
Lemma strip_spec (s : string) :
  exists before kept behind,
    characters s = before ++ kept ++ behind /\
    Forall (fun ch => is_space ch = true) before /\
    Forall (fun ch => is_space ch = true) behind /\
    (forall ch, head kept = Some ch -> is_space ch = false) /\
    (forall ch, last kept = Some ch -> is_space ch = false) /\
    kept = rstrip (lstrip (characters s)) /\
    strip s = join kept.
Proof.
  destruct (lstrip_spec (characters s)) as (before & E1 & H1 & Hh).
  destruct (rstrip_spec (lstrip (characters s))) as (behind & E2 & H2 & Hl & Hhd).
  exists before, (rstrip (lstrip (characters s))), behind.
  split; [rewrite <- E2; exact E1 |]. split; [exact H1 |]. split; [exact H2 |].
  split; [| split; [exact Hl | split; reflexivity]].
  intros ch Hch. rewrite Hhd in Hch.
  destruct (rstrip (lstrip (characters s))); [discriminate | exact (Hh ch Hch)].
Qed.

Lemma lstrip_fixed (l : list string) :
  (forall ch, head l = Some ch -> is_space ch = false) -> lstrip l = l.
Proof.
  destruct l as [| ch l]; [reflexivity |]. intros H. cbn [lstrip].
  rewrite (H ch eq_refl). reflexivity.
Qed.

Lemma strip_idempotent (s : string) : strip (strip s) = strip s.
Proof.
  destruct (strip_spec s) as (before & kept & behind & E & _ & _ & Hh & _ & Ek & Es).
  destruct (characters_shape s) as [Hs1 Hs2]. rewrite E in Hs1, Hs2.
  assert (Hk : characters (join kept) = kept).
  { apply characters_join.
    - apply Forall_app in Hs1 as [_ Hs1]. apply Forall_app in Hs1 as [Hs1 _]. exact Hs1.
    - destruct kept as [| ch kept]; [constructor |]. cbn [tail].
      destruct before as [| b before]; cbn [app tail] in Hs2.
      + apply Forall_app in Hs2 as [Hs2 _]. exact Hs2.
      + apply Forall_app in Hs2 as [_ Hs2]. inversion Hs2 as [| ? ? _ Hs3]; subst.
        apply Forall_app in Hs3 as [Hs3 _]. exact Hs3. }
  rewrite Es. unfold strip at 1. rewrite Hk, (lstrip_fixed kept Hh).
  rewrite Ek, rstrip_idempotent. reflexivity.
Qed.

Lemma strip_blank (s : string) :
  Forall (fun ch => is_space ch = true) (characters s) -> strip s = EmptyString.
Proof.
  unfold strip. intros H.
  assert (E : lstrip (characters s) = []).
  { induction H as [| ch l Hch _ IH]; [reflexivity |]. cbn [lstrip]. rewrite Hch. exact IH. }
  rewrite E. reflexivity.
Qed.

(** ** The case mapping of ASCII *)

Lemma lower_char_not_upper (c : Ascii.ascii) : is_upper (lower_char c) = false.
Proof. destruct c as [[] [] [] [] [] [] [] []]; reflexivity. Qed.

Lemma ascii_lower_no_upper (s : string) :
  Forall (fun c => is_upper c = false) (chars (ascii_lower s)).
Proof.
  unfold chars.
  induction s as [| c s IH]; cbn; constructor; [apply lower_char_not_upper | exact IH].
Qed.

(** ** The theorems at the sample world *)

Lemma check_generic_classification_witness :
  (run (sample_env never)
       (check_generic sample_title ascii_lower "https://medium.com/@{u}" "bob") w0).1
  = inl (true, PDict [("title", PStr "Bob"); ("source", PStr "generic-title")]).
Proof.
  destruct (check_generic_classification sample_title ascii_lower (sample_env never)
              "https://medium.com/@{u}" "bob" w0) as (_ & _ & H).
  destruct (H sample_page eq_refl) as (_ & _ & H3 & _).
  apply H3.
  - vm_compute. discriminate.
  - intros Hn. apply any_phrase_in_spec in Hn. vm_compute in Hn. discriminate.
  - vm_compute. discriminate.
Defined.

Lemma check_stackoverflow_non_digit_witness :
  Exists (fun ch => ascii_digit ch = false) (characters "al1ce") /\
  run (sample_env never)
      (check_stackoverflow sample_title ascii_lower ascii_digit "al1ce") w0
  = (inl (false, PDict []), w0).
Proof.
  assert (H : Exists (fun ch => ascii_digit ch = false) (characters "al1ce")).
  { vm_compute. left. reflexivity. }
  split; [exact H |].
  apply (check_stackoverflow_non_digit sample_title ascii_lower ascii_digit
           (sample_env never) "al1ce" w0 (or_intror H)).
Defined.




(** The steps of a scan of [three_platforms] in the sample world: 0, the
    check of platform 0 reads [STOP]; 1, its request; 2, its sleep; 3, the
    loop reads [STOP]; 4 to 7, the same for platform 1; 8, the check of
    platform 2 reads [STOP].

    SIGINT arrives during step 5, while the request for platform 1 is under
    way. *)
Lemma sample_cancelled_during :
  exists collected,
    cancelled_after sample_title sample_json ascii_lower ascii_digit (sample_env (at_step 5)) "bob"
      three_platforms (Seconds 150) w0 1 collected.
Proof.
  unfold cancelled_after.
  eexists _, _, _, _, _, _.
  split; [reflexivity |].
  split; [vm_compute; reflexivity |].
  split; [reflexivity |].
  split; [vm_compute; reflexivity |].
  split; reflexivity.
Defined.

(** SIGINT arrives during step 7: platform 1 is done and the loop has just
    read the flag. *)
Lemma sample_cancelled_behind :
  exists collected,
    cancelled_after sample_title sample_json ascii_lower ascii_digit (sample_env (at_step 7)) "bob"
      three_platforms (Seconds 150) w0 1 collected.
Proof.
  unfold cancelled_after.
  eexists _, _, _, _, _, _.
  split; [reflexivity |].
  split; [vm_compute; reflexivity |].
  split; [reflexivity |].
  split; [vm_compute; reflexivity |].
  split; reflexivity.
Defined.

Lemma scan_username_cancelled_witness :
  exists collected,
    cancelled_after sample_title sample_json ascii_lower ascii_digit (sample_env (at_step 7)) "bob"
      three_platforms (Seconds 150) w0 1 collected /\
    exists rs w',
      run (sample_env (at_step 7))
          (scan_username sample_title sample_json ascii_lower ascii_digit "bob" three_platforms (Seconds 150)) w0
      = (inl rs, w') /\
      collected `prefix_of` rs /\
      filter completed rs = collected /\
      length collected = 2%nat /\
      platform <$> collected = take 2 three_platforms /\
      (length rs <= 3)%nat.
Proof.
  destruct sample_cancelled_behind as [collected H].
  exists collected. split; [exact H |].
  apply (scan_username_cancelled sample_title sample_json ascii_lower ascii_digit (sample_env (at_step 7))
           "bob" three_platforms 150 w0 1 collected H).
Defined.

(** C4, as it is stated, fails.  Cancellation takes effect after platform
    index 1 of three has been processed, whether SIGINT arrives during its
    request or just behind it; the result then holds 2 completed outcomes,
    not 1. *)
Lemma scan_username_cancelled_counterexample :
  let scan := scan_username sample_title sample_json ascii_lower ascii_digit "bob" three_platforms (Seconds 150) in
  (exists collected,
     cancelled_after sample_title sample_json ascii_lower ascii_digit (sample_env (at_step 5)) "bob"
       three_platforms (Seconds 150) w0 1 collected) /\
  outcomes (run (sample_env (at_step 5)) scan w0) = Some [Some true; Some true] /\
  (exists collected,
     cancelled_after sample_title sample_json ascii_lower ascii_digit (sample_env (at_step 7)) "bob"
       three_platforms (Seconds 150) w0 1 collected) /\
  outcomes (run (sample_env (at_step 7)) scan w0)
  = Some [Some true; Some true; None] /\
  ~ (forall env collected,
       cancelled_after sample_title sample_json ascii_lower ascii_digit env "bob" three_platforms (Seconds 150) w0 1
         collected ->
       exists rs w', run env scan w0 = (inl rs, w') /\
         length (filter completed rs) = 1%nat).
Proof.
  intros scan.
  split; [exact sample_cancelled_during |].
  split; [vm_compute; reflexivity |].
  split; [exact sample_cancelled_behind |].
  split; [vm_compute; reflexivity |].
  intros Hclaim.
  destruct sample_cancelled_behind as [collected H].
  destruct (Hclaim _ _ H) as (rs & w' & E & Hlen).
  vm_compute in E. injection E as <- <-.
  vm_compute in Hlen. discriminate.
Qed.

(** C2, as it is stated, fails.  The local part of "_john.doe@x.com" splits
    into an empty piece, "john" and "doe", two of which are not empty; but the
    local part is the only candidate: none of the variants is derived, neither
    from the first and the last piece nor from the first and the last
    non-empty piece. *)
Lemma derive_candidates_counterexample :
  let email := "_john.doe@x.com" in
  let parts := re_split is_delimiter (split1_head (chr 64) email) in
  parts = [EmptyString; "john"; "doe"] /\
  (2 <= length (filter (fun p => p <> EmptyString) parts))%nat /\
  derive_candidates email = ["_john.doe"] /\
  ~ (forall c, c ∈ variants (hd EmptyString parts) (List.last parts EmptyString) ->
               c ∈ derive_candidates email) /\
  ~ (forall c, c ∈ variants "john" "doe" -> c ∈ derive_candidates email).
Proof.
  intros email parts.
  assert (Hd : derive_candidates email = ["_john.doe"]) by (vm_compute; reflexivity).
  split; [vm_compute; reflexivity |].
  split; [vm_compute; lia |].
  split; [exact Hd |].
  rewrite Hd. split.
  - intros H. specialize (H "doe"). vm_compute in H.
    assert (Hin : "doe" ∈ ["_john.doe"]) by (apply H; left).
    apply list_elem_of_singleton in Hin. discriminate.
  - intros H. specialize (H "johndoe").
    assert (Hin : "johndoe" ∈ ["_john.doe"]) by (apply H; left).
    apply list_elem_of_singleton in Hin. discriminate.
Qed.

(** ** More on the Gravatar key *)

Lemma hex_digit_is_hex (n : Z) : 0 <= n < 16 -> is_hex_char (MD5.hex_digit n) = true.
Proof.
  intros H.
  assert (Hall : Forall (fun k => is_hex_char (MD5.hex_digit k) = true) (seqZ 0 16))
    by (vm_compute; repeat constructor).
  apply (proj1 (Forall_forall _ _) Hall). apply elem_of_seqZ. lia.
Qed.

Lemma hex_spec (bytes : list Z) :
  Forall (fun b => 0 <= b < 256) bytes ->
  String.length (MD5.hex bytes) = (2 * length bytes)%nat /\
  Forall (fun c => is_hex_char c = true) (chars (MD5.hex bytes)).
Proof.
  induction 1 as [| b bs Hb _ [IH1 IH2]]; cbn [MD5.hex String.length length].
  - split; [reflexivity | constructor].
  - split; [rewrite IH1; lia |].
    unfold chars. cbn [String.list_ascii_of_string].
    constructor; [apply hex_digit_is_hex; split;
                  [apply Z.div_pos | apply Z.div_lt_upper_bound]; lia |].
    constructor; [apply hex_digit_is_hex, Z.mod_pos_bound; lia | exact IH2].
Qed.

Lemma le_bytes_range (n : nat) (x : Z) :
  Forall (fun b => 0 <= b < 256) (MD5.le_bytes n x) /\ length (MD5.le_bytes n x) = n.
Proof.
  revert x. induction n as [| n IH]; intros x; cbn [MD5.le_bytes length].
  - split; [constructor | reflexivity].
  - destruct (IH (x / 256)) as [IH1 IH2].
    split; [constructor; [apply Z.mod_pos_bound; lia | exact IH1] | lia].
Qed.

Lemma digest_spec (msg : list Z) :
  Forall (fun b => 0 <= b < 256) (MD5.digest msg) /\ length (MD5.digest msg) = 16%nat.
Proof.
  unfold MD5.digest.
  destruct (foldl MD5.block MD5.init _) as [[[a b] c] d].
  pose proof (le_bytes_range 4 a) as [Ha1 Ha2].
  pose proof (le_bytes_range 4 b) as [Hb1 Hb2].
  pose proof (le_bytes_range 4 c) as [Hc1 Hc2].
  pose proof (le_bytes_range 4 d) as [Hd1 Hd2].
  split.
  - repeat (apply Forall_app; split); assumption.
  - rewrite !length_app. lia.
Qed.

(** X19.  The Gravatar key of an address, when there is one, is made of 32
    lowercase hexadecimal digits. *)
Theorem gravatar_hash_is_32_hex_digits (lower : string -> string) (email h : string) :
  gravatar_hash lower email = Some h ->
  String.length h = 32%nat /\
  Forall (fun c => is_hex_char c = true) (chars h).
Proof.
  unfold gravatar_hash, MD5.hexdigest.
  destruct (encode (lower (strip email))) as [bytes |]; [| discriminate].
  intros [= <-].
  destruct (digest_spec bytes) as [H1 H2].
  destruct (hex_spec _ H1) as [H3 H4]. rewrite H2 in H3. auto.
Qed.

(** X20.  The Gravatar key does not depend on whitespace around the
    address, be it ASCII blanks or characters such as NBSP and EM SPACE. *)
Theorem gravatar_hash_ignores_blanks (lower : string -> string) (email : string) :
  gravatar_hash lower (strip email) = gravatar_hash lower email /\
  strip (utf8_char 160 +:+ " bob@example.com" +:+ utf8_char 8195) = "bob@example.com".
Proof.
  split; [| vm_compute; reflexivity].
  unfold gravatar_hash. rewrite strip_idempotent. reflexivity.
Qed.

(** ** More on the candidates *)

Lemma split1_head_chars (sep : Ascii.ascii) (s : string) :
  chars (split1_head sep s) ⊆ chars s /\ sep ∉ chars (split1_head sep s).
Proof.
  unfold chars. induction s as [| c s [IH1 IH2]]; cbn.
  - split; [reflexivity | apply not_elem_of_nil].
  - destruct (Ascii.eqb_spec c sep) as [-> | Hne]; cbn.
    + split; [apply list_subseteq_nil | apply not_elem_of_nil].
    + split.
      * intros x Hx. apply elem_of_cons in Hx as [-> | Hx]; [left | right; auto].
      * intros Hin. apply elem_of_cons in Hin as [-> | Hin]; [congruence | auto].
Qed.

Lemma re_split_chars (cls : Ascii.ascii -> bool) (s : string) :
  Forall (fun p => chars p ⊆ chars s) (re_split cls s).
Proof.
  unfold chars. induction s as [| c s IH]; cbn.
  - constructor; [reflexivity | constructor].
  - assert (Hw : Forall (fun p => String.list_ascii_of_string p
                                  ⊆ c :: String.list_ascii_of_string s)
                        (re_split cls s)).
    { eapply Forall_impl; [exact IH |]. intros p Hp x Hx. right. auto. }
    destruct (cls c).
    + constructor; [apply list_subseteq_nil | exact Hw].
    + destruct (re_split cls s) as [| p ps].
      { constructor; [| constructor]. cbn. intros x Hx.
        apply elem_of_cons in Hx as [-> | Hx]; [left | inversion Hx]. }
      inversion IH; subst. inversion Hw; subst.
      constructor; [| assumption].
      cbn. intros x Hx. apply elem_of_cons in Hx as [-> | Hx]; [left | right; auto].
Qed.

Lemma take_continuation_chars (s : string) : chars (take_continuation s) ⊆ chars s.
Proof.
  unfold chars. induction s as [| c s IH]; cbn; [reflexivity |].
  destruct (is_continuation c); cbn; [| apply list_subseteq_nil].
  intros x Hx. apply elem_of_cons in Hx as [-> | Hx]; [left | right; auto].
Qed.

Lemma first_char_chars (s : string) : chars (first_char s) ⊆ chars s.
Proof.
  destruct s as [| c s]; [reflexivity |]. unfold chars. cbn.
  pose proof (take_continuation_chars s) as H. unfold chars in H.
  intros x Hx. apply elem_of_cons in Hx as [-> | Hx]; [left | right; auto].
Qed.

Lemma last_elem_of {A : Type} (l : list A) (d : A) :
  l <> [] -> List.last l d ∈ l.
Proof.
  induction l as [| a [| b l] IH]; intros H; [congruence | left |].
  rewrite last_cons_cons. right. apply IH. discriminate.
Qed.

Lemma local_in_candidate_set (email : string) :
  split1_head (chr 64) email ∈ candidate_set email.
Proof.
  unfold candidate_set.
  destruct (2 <=? length (re_split is_delimiter (split1_head (chr 64) email)))%nat;
    [| apply elem_of_singleton; reflexivity].
  destruct (re_split is_delimiter (split1_head (chr 64) email)) as [| first rest];
    [apply elem_of_singleton; reflexivity |].
  destruct (nonempty first && nonempty (List.last rest EmptyString));
    [apply elem_of_union; left |]; apply elem_of_singleton; reflexivity.
Qed.

(** X21.  No candidate contains the character [@], and the empty string is
    a candidate exactly when the part of the address before [@] is empty. *)
Theorem derive_candidates_are_usernames (email : string) :
  Forall (fun c => chr 64 ∉ chars c) (derive_candidates email) /\
  (EmptyString ∈ derive_candidates email <->
   split1_head (chr 64) email = EmptyString).
Proof.
  set (local := split1_head (chr 64) email).
  destruct (split1_head_chars (chr 64) email) as [_ Hat]. fold local in Hat.
  pose proof (derive_candidates_sorted_set email) as Hd.
  assert (Hmem : forall c, c ∈ derive_candidates email <-> c ∈ candidate_set email)
    by (intros c; apply elem_of_derive_candidates).
  assert (Hcases : forall c, c ∈ candidate_set email ->
            c = local \/
            exists first last, first <> EmptyString /\
              chars first ⊆ chars local /\ chars last ⊆ chars local /\
              c ∈ variants first last).
  { intros c. unfold candidate_set. fold local.
    destruct (2 <=? length (re_split is_delimiter local))%nat;
      [| rewrite elem_of_singleton; auto].
    pose proof (re_split_chars is_delimiter local) as Hch.
    destruct (re_split is_delimiter local) as [| first rest];
      [rewrite elem_of_singleton; auto |].
    destruct (nonempty first) eqn:Ef; cbn [andb];
      [| rewrite elem_of_singleton; auto].
    destruct (nonempty (List.last rest EmptyString)) eqn:El;
      [| rewrite elem_of_singleton; auto].
    rewrite elem_of_union, elem_of_singleton, elem_of_list_to_set.
    intros [H | H]; [auto |]. right.
    exists first, (List.last rest EmptyString).
    inversion Hch as [| ? ? Hf Hr]; subst.
    split; [apply nonempty_true, Ef |]. split; [exact Hf |]. split; [| exact H].
    assert (Hne : rest <> []).
    { intros ->. cbn in El. discriminate. }
    exact (proj1 (Forall_forall _ _) Hr _ (last_elem_of rest EmptyString Hne)). }
  assert (Hsep : (chr 64 ∉ chars "_") /\ (chr 64 ∉ chars ".")).
  { split; intros H; apply list_elem_of_singleton in H; discriminate. }
  split.
  - apply Forall_forall. intros c Hc. apply Hmem, Hcases in Hc.
    destruct Hc as [-> | (first & last & _ & Hf & Hl & Hv)]; [exact Hat |].
    pose proof (first_char_chars first) as Hfc.
    unfold variants in Hv.
    repeat (apply elem_of_cons in Hv as [-> | Hv]);
      [| | | | inversion Hv];
      rewrite ?list_ascii_append, ?elem_of_app; intuition auto.
  - rewrite Hmem. split.
    + intros Hc. apply Hcases in Hc.
      destruct Hc as [<- | (first & last & Hne & _ & _ & Hv)]; [reflexivity |].
      exfalso. unfold variants in Hv.
      destruct first as [| a first]; [congruence |].
      repeat (apply elem_of_cons in Hv as [Hv | Hv]; [discriminate |]).
      inversion Hv.
    + intros Hl. rewrite <- Hl. apply local_in_candidate_set.
Qed.

(** ** The extracted title *)

(** X22.  The title [_title_from_html] returns is the title of the document
    without the whitespace at its two ends, where whitespace is what
    [str.strip()] removes, NBSP and the like included: the characters of the
    raw title are a run of whitespace, the characters of the title, and a run
    of whitespace, and the title neither begins nor ends with whitespace.
    Stripping it again changes nothing, and a raw title made of whitespace
    only gives the empty title. *)
Theorem title_is_stripped (xpath_title : string -> option string)
    (content raw : string) :
  xpath_title content = Some raw ->
  let title := _title_from_html xpath_title content in
  (exists before behind,
     characters raw = before ++ characters title ++ behind /\
     Forall (fun ch => is_space ch = true) before /\
     Forall (fun ch => is_space ch = true) behind) /\
  (forall ch, head (characters title) = Some ch -> is_space ch = false) /\
  (forall ch, last (characters title) = Some ch -> is_space ch = false) /\
  strip title = title /\
  (Forall (fun ch => is_space ch = true) (characters raw) -> title = EmptyString).
Proof.
  intros Hraw title. subst title. unfold _title_from_html. rewrite Hraw.
  destruct (strip_spec raw) as (before & kept & behind & E & H1 & H2 & Hh & Hl & Ek & Es).
  assert (Hk : characters (strip raw) = kept).
  { pose proof (strip_idempotent raw) as Hi. unfold strip at 1 in Hi.
    rewrite Es. destruct (characters_shape raw) as [Hs1 Hs2]. rewrite E in Hs1, Hs2.
    apply characters_join.
    - apply Forall_app in Hs1 as [_ Hs1]. apply Forall_app in Hs1 as [Hs1 _]. exact Hs1.
    - destruct kept as [| ch kept]; [constructor |]. cbn [tail].
      destruct before as [| b before]; cbn [app tail] in Hs2.
      + apply Forall_app in Hs2 as [Hs2 _]. exact Hs2.
      + apply Forall_app in Hs2 as [_ Hs2]. inversion Hs2 as [| ? ? _ Hs3]; subst.
        apply Forall_app in Hs3 as [Hs3 _]. exact Hs3. }
  rewrite Hk.
  split; [exists before, behind; auto |].
  split; [exact Hh |]. split; [exact Hl |].
  split; [apply strip_idempotent | apply strip_blank].
Qed.

(** ** The further theorems at the sample world *)

Lemma call_checker_exception_witness :
  run broken_env (call_checker sample_title sample_json ascii_lower ascii_digit "medium" "bob") w0
  = (inr (mkExn false "boom"), mkWorld false 1 ["https://medium.com/@bob"] []) /\
  is_request_exception (mkExn false "boom") = false /\
  "medium" ∉ fail_closed_platforms.
Proof.
  assert (E : run broken_env (call_checker sample_title sample_json ascii_lower ascii_digit "medium" "bob") w0
              = (inr (mkExn false "boom"),
                 mkWorld false 1 ["https://medium.com/@bob"] []))
    by (vm_compute; reflexivity).
  split; [exact E |].
  exact (call_checker_exception sample_title sample_json ascii_lower ascii_digit broken_env "medium" "bob"
           w0 _ _ E).
Defined.

Lemma scan_username_short_is_cancelled_witness :
  exists rs w',
    run (sample_env (at_step 5))
        (scan_username sample_title sample_json ascii_lower ascii_digit "bob" three_platforms (Seconds 150)) w0
    = (inl rs, w') /\
    (length rs < length three_platforms)%nat /\ STOP w' = true.
Proof.
  assert (E : exists rs w',
             run (sample_env (at_step 5))
                 (scan_username sample_title sample_json ascii_lower ascii_digit "bob" three_platforms (Seconds 150)) w0
             = (inl rs, w') /\ (length rs < length three_platforms)%nat).
  { eexists _, _. split; [vm_compute; reflexivity | cbn; lia]. }
  destruct E as (rs & w' & E & Hlt).
  exists rs, w'. split; [exact E |]. split; [exact Hlt |].
  exact (scan_username_short_is_cancelled sample_title sample_json ascii_lower ascii_digit _ _ _ _ _ _ _ E Hlt).
Defined.

Lemma scan_username_already_cancelled_witness :
  STOP w_stopped = true /\
  exists w',
    run (sample_env never)
        (scan_username sample_title sample_json ascii_lower ascii_digit "bob" ("medium" :: ["devto"; "vimeo"]) (Seconds 150))
        w_stopped
    = (inl [skipped_hit "medium" "bob"], w') /\
    requests w' = requests w_stopped /\ naps w' = naps w_stopped.
Proof.
  split; [reflexivity |].
  apply (scan_username_already_cancelled sample_title sample_json ascii_lower ascii_digit (sample_env never)
           "bob" "medium" ["devto"; "vimeo"] 150 w_stopped).
  reflexivity.
Defined.



Lemma flatten_csv_username_witness :
  res_hits (sample_results (Some [sample_hit]) None) = Some [sample_hit] /\
  Forall readable [sample_hit] /\
  exists rows,
    run (sample_env never) (flatten_csv (sample_results (Some [sample_hit]) None)) w0
    = (inl rows, w0) /\
    Forall2 (renders 1700000000 "username" (Some "bob")) [sample_hit] rows.
Proof.
  assert (Hr : Forall readable [sample_hit]).
  { constructor; [| constructor]. intros _. exact I. }
  split; [reflexivity |]. split; [exact Hr |].
  exact (proj1 (flatten_csv_username (sample_env never)
                  (sample_results (Some [sample_hit]) None) [sample_hit] w0 eq_refl) Hr).
Defined.

Lemma stackoverflow_untitled_breaks_rows_witness :
  isdigit ascii_digit "12345" = true /\
  network untitled_env (length (requests w0)) "https://stackoverflow.com/users/12345"
  = Respond (mkResponse 200 "<html></html>" "<html></html>") /\
  exists h w',
    run untitled_env (worker_check sample_title sample_json ascii_lower ascii_digit "stack_overflow" "12345" (Seconds 150)) w0
    = (inl h, w') /\
    exists_ h = Some true /\
    meta h = PTuple [PBool true; PDict []] /\
    forall env' ts mode subject w2,
      run env' (hit_row ts mode subject h) w2 = (inr AttributeError, w2).
Proof.
  split; [reflexivity |]. split; [reflexivity |].
  apply (stackoverflow_untitled_breaks_rows sample_title sample_json ascii_lower ascii_digit untitled_env
           "12345" 150 w0 (mkResponse 200 "<html></html>" "<html></html>")).
  - reflexivity.
  - reflexivity.
  - reflexivity.
  - vm_compute. discriminate.
  - vm_compute. reflexivity.
  - vm_compute. reflexivity.
Defined.

Lemma flatten_csv_email_witness :
  Forall (fun cr => Forall readable cr.2) (es_platform_hits sample_email_scan) /\
  exists rows,
    run (sample_env never) (flatten_csv (sample_results None (Some sample_email_scan))) w0
    = (inl (gravatar_row (sample_results None (Some sample_email_scan))
                         sample_email_scan :: rows), w0) /\
    Forall2 (fun uh r => renders 1700000000 "email-derived" (Some uh.1) uh.2 r)
            (hits_by_candidate (es_platform_hits sample_email_scan)) rows.
Proof.
  assert (Hr : Forall (fun cr => Forall readable cr.2)
                      (es_platform_hits sample_email_scan)).
  { constructor; [| constructor]. constructor; [| constructor]. intros _. exact I. }
  split; [exact Hr |].
  exact (flatten_csv_email (sample_env never)
           (sample_results None (Some sample_email_scan)) sample_email_scan w0
           eq_refl eq_refl Hr).
Defined.

Lemma main_csv_rows_without_stack_overflow_witness :
  ("stack_overflow" ∉ arg_platforms sample_args) /\
  exists results w' rows,
    run (sample_env never) (main_results sample_title sample_json ascii_lower ascii_digit sample_args 1700000000) w0
    = (inl results, w') /\
    run (sample_env never) (csv_rows sample_args results) w' = (inl rows, w').
Proof.
  assert (H : "stack_overflow" ∉ arg_platforms sample_args).
  { intros H. cbn in H.
    repeat (apply elem_of_cons in H as [H | H]; [discriminate |]). inversion H. }
  split; [exact H |].
  exact (main_csv_rows_without_stack_overflow sample_title sample_json ascii_lower ascii_digit
           (sample_env never) sample_args 1700000000 w0 H).
Defined.

Lemma check_tiktok_present_by_title_only_witness :
  (forall t, Forall (fun c => is_upper c = false) (chars (ascii_lower t))) /\
  exists m w',
    run (sample_env never) (check_tiktok sample_title ascii_lower "bob") w0
    = (inl (true, m), w') /\
    exists r, network (sample_env never) (length (requests w0)) "https://www.tiktok.com/@bob"
              = Respond r /\
      _title_from_html sample_title (content r) <> EmptyString /\
      m = PDict [("title", PStr (_title_from_html sample_title (content r)))].
Proof.
  split; [exact ascii_lower_no_upper |].
  assert (E : exists m w',
             run (sample_env never) (check_tiktok sample_title ascii_lower "bob") w0
             = (inl (true, m), w')).
  { eexists _, _. vm_compute. reflexivity. }
  destruct E as (m & w' & E). exists m, w'. split; [exact E |].
  exact (check_tiktok_present_by_title_only sample_title ascii_lower (sample_env never)
           "bob" w0 m w' ascii_lower_no_upper E).
Defined.

Lemma gravatar_key_is_md5_of_normalised_email_witness :
  encode (ascii_lower (strip " Bob@Example.com"))
  = Some [98; 111; 98; 64; 101; 120; 97; 109; 112; 108; 101; 46; 99; 111; 109] /\
  exists res w',
    run (sample_env never)
        (scan_email sample_title sample_json ascii_lower ascii_digit " Bob@Example.com"
           three_platforms (Seconds 150) true) w0 = (inl res, w') /\
    gravatar_json_url (gravatar res)
      = Some "https://www.gravatar.com/4b9bb80620f03eb3719e0a061c14283d.json" /\
    requests w' !! 0%nat
      = Some "https://www.gravatar.com/4b9bb80620f03eb3719e0a061c14283d.json".
Proof.
  assert (E : encode (ascii_lower (strip " Bob@Example.com"))
              = Some [98; 111; 98; 64; 101; 120; 97; 109; 112; 108; 101; 46; 99; 111; 109])
    by (vm_compute; reflexivity).
  split; [exact E |].
  destruct (gravatar_key_is_md5_of_normalised_email sample_title sample_json ascii_lower
              ascii_digit (sample_env never) " Bob@Example.com" three_platforms 150 true
              w0 _ (fun s _ => eq_refl) E)
    as ((res & w' & Er & Hj & _ & Hq) & _).
  exists res, w'. split; [exact Er |].
  change (length (requests w0)) with 0%nat in Hq.
  split; [rewrite Hj; vm_compute; reflexivity | rewrite Hq; vm_compute; reflexivity].
Defined.

Lemma gravatar_hash_is_32_hex_digits_witness :
  gravatar_hash ascii_lower "bob@example.com" = Some "4b9bb80620f03eb3719e0a061c14283d" /\
  String.length "4b9bb80620f03eb3719e0a061c14283d" = 32%nat.
Proof.
  assert (E : gravatar_hash ascii_lower "bob@example.com"
              = Some "4b9bb80620f03eb3719e0a061c14283d") by (vm_compute; reflexivity).
  split; [exact E |].
  exact (proj1 (gravatar_hash_is_32_hex_digits ascii_lower "bob@example.com" _ E)).
Defined.

Lemma title_is_stripped_witness :
  let page := "<title>" +:+ utf8_char 160 +:+ " Bob " +:+ utf8_char 8195 +:+ "</title>" in
  sample_title page = Some (utf8_char 160 +:+ " Bob " +:+ utf8_char 8195) /\
  _title_from_html sample_title page = "Bob" /\
  strip (_title_from_html sample_title page) = _title_from_html sample_title page.
Proof.
  intros page.
  assert (E : sample_title page = Some (utf8_char 160 +:+ " Bob " +:+ utf8_char 8195))
    by (vm_compute; reflexivity).
  split; [exact E |]. split; [vm_compute; reflexivity |].
  exact (proj1 (proj2 (proj2 (proj2 (title_is_stripped sample_title page _ E))))).
Defined.
